(** * aws-lambda-graphql: the DynamoDB stream event processor

    A shallow embedding of
    [packages/aws-lambda-graphql/src/createDynamoDBEventProcessor.ts]:
    the [PubSub] class that replays one stored event, and the handler
    built by [createDynamoDBEventProcessor], which walks a batch of
    stream records, resolves the subscribers of every inserted event
    page by page, executes each subscriber's operation once and sends
    the first result to the subscriber's connection.

    Promises are modelled by their settled value, a synchronous call by
    its completion.  The handler is a function from a schedule (the
    order in which the event loop resumes the pending subscriber tasks
    of a page) to a run: the calls made on the collaborators, in order,
    and the way the handler's promise settles. *)

From Stdlib Require Import String List Bool Arith Lia Permutation.
Import ListNotations.
Open Scope string_scope.
Open Scope list_scope.

Set Implicit Arguments.

(** ** Completions, promises, iterators *)

Inductive Exn : Type :=
| TypeError (msg : string)
| SyntaxError (msg : string)
| Error (msg : string).

(** The completion of a synchronous call. *)
Inductive Completion (A : Type) : Type :=
| Normal (a : A)
| Throw (e : Exn).
Arguments Throw {A} e.

(** A promise, by the way it settles. *)
Inductive Settled (A : Type) : Type :=
| Fulfilled (a : A)
| Rejected (e : Exn).
Arguments Rejected {A} e.

(** [{ value, done }]; [value = None] stands for [null] and [undefined]. *)
Record IteratorResult (A : Type) : Type :=
  { value : option A; done : bool }.

(** An async iterator, by what its k-th call of [next()] settles to. *)
Definition AsyncIterator (A : Type) : Type := nat -> Settled (IteratorResult A).

(** iterall's [createAsyncIterator] on an array: one element per pull,
    then [{ value: undefined, done: true }]. *)
Definition createAsyncIterator {A : Type} (collection : list A) : AsyncIterator A :=
  fun k =>
    match nth_error collection k with
    | Some v => Fulfilled {| value := Some v; done := false |}
    | None => Fulfilled {| value := None; done := true |}
    end.

(** [Array.prototype.map] with a callback that may throw: the first
    throw aborts the whole call. *)
Fixpoint mapThrowing {A B : Type} (f : A -> Completion B) (l : list A)
  : Completion (list B) :=
  match l with
  | [] => Normal []
  | x :: l' =>
      match f x with
      | Throw e => Throw e
      | Normal y =>
          match mapThrowing f l' with
          | Throw e => Throw e
          | Normal ys => Normal (y :: ys)
          end
      end
  end.

(** The values an iterator hands out before it reports [done]. *)
Fixpoint drain {A : Type} (fuel : nat) (it : AsyncIterator A) (k : nat) : list A :=
  match fuel with
  | 0 => []
  | S fuel' =>
      match it k with
      | Fulfilled {| value := Some v; done := false |} => v :: drain fuel' it (S k)
      | _ => []
      end
  end.

(** ** Interleavings

    [Merge ls tr]: [tr] is an interleaving of the lists [ls], each of
    them kept in its own order. *)
Inductive Merge {A : Type} : list (list A) -> list A -> Prop :=
| Merge_done ls :
    Forall (fun l => l = []) ls -> Merge ls []
| Merge_step ls1 x l ls2 tr :
    Merge (ls1 ++ l :: ls2) tr ->
    Merge (ls1 ++ (x :: l) :: ls2) (x :: tr).

(** [DropEmpty ls ls']: [ls'] is [ls] without some of its empty lists. *)
Inductive DropEmpty {A : Type} : list (list A) -> list (list A) -> Prop :=
| DropEmpty_nil : DropEmpty [] []
| DropEmpty_keep l ls ls' : DropEmpty ls ls' -> DropEmpty (l :: ls) (l :: ls')
| DropEmpty_drop ls ls' : DropEmpty ls ls' -> DropEmpty ([] :: ls) ls'.

(** ** The schedule

    The subscriber tasks of one page run concurrently; which pending
    task the event loop resumes next is not decided by the program.  A
    schedule is the list of these choices: each number picks one of the
    tasks still pending (modulo their count), an exhausted schedule
    picks the first. *)
Definition Sched : Type := list nat.

Section Processor.

Context {AttributeMap Structured Operation ExecutionResult : Type}.
Context {Schema Context_ LambdaContext : Type}.

(** *** Data *)

(** [event.payload]: a serialized string or any other value. *)
Inductive Payload : Type :=
| PayloadString (s : string)
| PayloadValue (v : Structured).

Record ISubscriptionEvent : Type :=
  { event : string; payload : Payload }.

Record StreamRecord : Type :=
  { NewImage : option AttributeMap }.

(** A DynamoDB stream record; both fields are optional in the
    handler's input type. *)
Record DynamoDBRecord : Type :=
  { eventName : option string; dynamodb : option StreamRecord }.

Record IConnectionData : Type :=
  { useLegacyProtocol : option bool }.

Record IConnection : Type :=
  { conn_id : string; data : IConnectionData }.

Record ISubscriber : Type :=
  { connection : IConnection; operation : Operation; operationId : string }.

Record ServerEventTypes : Type :=
  { GQL_DATA : string }.

Record Protocol : Type :=
  { SERVER_EVENT_TYPES : ServerEventTypes }.

(** The argument of [formatMessage]. *)
Record OutboundMessage : Type :=
  { msg_id : string; msg_payload : ExecutionResult; msg_type : string }.

(** *** class PubSub *)

Record PubSub : Type :=
  { events : list ISubscriptionEvent }.

(** [eventNames: string | string[]] *)
Inductive EventNames : Type :=
| OneName (name : string)
| ManyNames (names : list string).

Definition includes (names : list string) (name : string) : bool :=
  existsb (String.eqb name) names.

(** [Array.isArray(eventNames) ? eventNames : [eventNames]] *)
Definition namesOf (eventNames : EventNames) : list string :=
  match eventNames with
  | ManyNames l => l
  | OneName n => [n]
  end.

Section PubSubMethods.

(** [JSON.parse]; a [SyntaxError] on text that is not JSON. *)
Variable JSON_parse : string -> Completion Payload.

Definition parsePayload (ev : ISubscriptionEvent) : Completion Payload :=
  match payload ev with
  | PayloadString s => JSON_parse s
  | PayloadValue v => Normal (PayloadValue v)
  end.

(** The array handed to [createAsyncIterator]. *)
Definition matchingPayloads (this : PubSub) (eventNames : EventNames)
  : Completion (list Payload) :=
  let names := namesOf eventNames in
  mapThrowing parsePayload
    (filter (fun ev => includes names (event ev)) (events this)).

Definition asyncIterator (this : PubSub) (eventNames : EventNames)
  : Completion (AsyncIterator Payload) :=
  match matchingPayloads this eventNames with
  | Throw e => Throw e
  | Normal values => Normal (createAsyncIterator values)
  end.

End PubSubMethods.

(** *** The collaborators *)

(** [subscribersByEventName(name)]: the pages the registry's async
    iterable yields, and how it ends. *)
Inductive PageStream : Type :=
| PagesDone
| PagesThrow (e : Exn)
| PagesYield (subscribers : list ISubscriber) (more : PageStream).

Record IConnectionManager : Type :=
  { sendToConnection : IConnection -> string -> Settled unit }.

Record ISubscriptionManager : Type :=
  { subscribersByEventName : string -> PageStream }.

Record DynamoDBEventProcessorOptions : Type :=
  { connectionManager : IConnectionManager;
    context : Context_;
    schema : Schema;
    subscriptionManager : ISubscriptionManager }.

(** The argument of [execute]. *)
Record ExecuteOptions : Type :=
  { x_connectionManager : IConnectionManager;
    x_subscriptionManager : ISubscriptionManager;
    x_schema : Schema;
    x_lambdaContext : LambdaContext;
    x_context : Context_;
    x_connection : IConnection;
    x_operation : Operation;
    x_pubSub : PubSub;
    x_registerSubscriptions : bool;
    x_useSubscriptions : bool }.

(** What [execute] resolves to: an async iterable, or a plain
    execution result. *)
Inductive ExecuteResult : Type :=
| AsyncIterable (it : AsyncIterator ExecutionResult)
| NotIterable (r : ExecutionResult).

Definition executeRejects (execute : ExecuteOptions -> Settled ExecuteResult)
  (opts : ExecuteOptions) : bool :=
  match execute opts with
  | Rejected _ => true
  | Fulfilled _ => false
  end.

(** Two answers of [execute] that differ at most in what the handler
    does not read: the plain result of an answer that is not iterable,
    the [done] mark of the first pull, and every later pull. *)
Definition sameFirstValue (p p' : Settled ExecuteResult) : Prop :=
  match p, p' with
  | Rejected e, Rejected e' => e = e'
  | Fulfilled (NotIterable _), Fulfilled (NotIterable _) => True
  | Fulfilled (AsyncIterable it), Fulfilled (AsyncIterable it') =>
      match it 0, it' 0 with
      | Rejected e, Rejected e' => e = e'
      | Fulfilled r, Fulfilled r' => value r = value r'
      | _, _ => False
      end
  | _, _ => False
  end.

(** The imports of the module. *)
Variable unmarshall : option AttributeMap -> Completion ISubscriptionEvent.
Variable execute : ExecuteOptions -> Settled ExecuteResult.
Variable getProtocol : bool -> Protocol.
Variable formatMessage : OutboundMessage -> Completion string.

(** *** Runs *)

(** The calls the handler makes on its collaborators.  [CallSend] and
    [CallLog] name the subscriber whose task makes the call:
    [sendToConnection] receives that subscriber's connection. *)
Inductive Call : Type :=
| CallSubscribersByEventName (name : string)
| CallNextPage (name : string)
| CallExecute (s : ISubscriber) (opts : ExecuteOptions)
| CallNext (s : ISubscriber)
| CallSend (s : ISubscriber) (message : string)
| CallLog (s : ISubscriber) (e : Exn).

Record Run (A : Type) : Type :=
  mkRun { calls : list Call; rest : Sched; result : Settled A }.

Definition Async (A : Type) : Type := Sched -> Run A.

Definition ret {A : Type} (a : A) : Async A :=
  fun sched => mkRun [] sched (Fulfilled a).

Definition reject {A : Type} (e : Exn) : Async A :=
  fun sched => mkRun [] sched (Rejected e).

Definition call (c : Call) : Async unit :=
  fun sched => mkRun [c] sched (Fulfilled tt).

Definition bind {A B : Type} (m : Async A) (k : A -> Async B) : Async B :=
  fun sched =>
    let r := m sched in
    match result r with
    | Rejected e => mkRun (calls r) (rest r) (Rejected e)
    | Fulfilled a =>
        let r' := k a (rest r) in
        mkRun (calls r ++ calls r') (rest r') (result r')
    end.

Notation "m ;; k" := (bind m (fun _ => k))
  (at level 61, right associativity).

(** *** Records *)

Definition isInsert (record : DynamoDBRecord) : bool :=
  match eventName record with
  | Some name => String.eqb name "INSERT"
  | None => false
  end.

(** [DynamoDB.Converter.unmarshall(record.dynamodb!.NewImage)]: the
    [!] is erased, reading [NewImage] of [undefined] throws. *)
Definition decode (record : DynamoDBRecord) : Completion ISubscriptionEvent :=
  match dynamodb record with
  | None => Throw (TypeError "Cannot read property 'NewImage' of undefined")
  | Some image => unmarshall (NewImage image)
  end.

(** *** What decides how the handler's promise settles

    Only decoding and the subscriber registry. *)

(** How the page loop over a registry answer ends. *)
Fixpoint pagesResult (pages : PageStream) : Settled unit :=
  match pages with
  | PagesDone => Fulfilled tt
  | PagesThrow e => Rejected e
  | PagesYield _ more => pagesResult more
  end.

Section Outcome.

Variable manager : ISubscriptionManager.

Definition registryPages (ev : ISubscriptionEvent) : PageStream :=
  subscribersByEventName manager (event ev).

Fixpoint batchResult (Records : list DynamoDBRecord) : Settled unit :=
  match Records with
  | [] => Fulfilled tt
  | record :: more =>
      if isInsert record then
        match decode record with
        | Throw e => Rejected e
        | Normal ev =>
            match pagesResult (registryPages ev) with
            | Fulfilled _ => batchResult more
            | Rejected e => Rejected e
            end
        end
      else batchResult more
  end.

(** Neither decoding the record nor the registry's answer fails. *)
Definition recordSucceeds (record : DynamoDBRecord) : bool :=
  if isInsert record then
    match decode record with
    | Throw _ => false
    | Normal ev =>
        match pagesResult (registryPages ev) with
        | Fulfilled _ => true
        | Rejected _ => false
        end
    end
  else true.

End Outcome.

(** *** The handler *)

Variable options : DynamoDBEventProcessorOptions.
Variable lambdaContext : LambdaContext.

Definition executeOptions (ev : ISubscriptionEvent) (subscriber : ISubscriber)
  : ExecuteOptions :=
  {| x_connectionManager := connectionManager options;
     x_subscriptionManager := subscriptionManager options;
     x_schema := schema options;
     x_lambdaContext := lambdaContext;
     x_context := context options;
     x_connection := connection subscriber;
     x_operation := operation subscriber;
     x_pubSub := {| events := [ev] |};
     x_registerSubscriptions := false;
     x_useSubscriptions := true |}.

(** The three [await]s of the async arrow function, each with the
    promise it waits for. *)
Inductive Suspended : Type :=
| AwaitExecute (p : Settled ExecuteResult)
| AwaitNext (p : Settled (IteratorResult ExecutionResult))
| AwaitSend (p : Settled unit).

Definition dataTag (c : IConnection) : string :=
  let useLegacy :=
    match useLegacyProtocol (data c) with
    | Some flag => flag
    | None => false
    end in
  GQL_DATA (SERVER_EVENT_TYPES (getProtocol useLegacy)).

Definition outbound (subscriber : ISubscriber) (v : ExecutionResult)
  : OutboundMessage :=
  {| msg_id := operationId subscriber;
     msg_payload := v;
     msg_type := dataTag (connection subscriber) |}.

(** The arrow function, resumed at one of its [await]s: the call it
    makes, and either the next [await] or the settlement of its own
    promise. *)
Definition resumeArrow (subscriber : ISubscriber) (k : Suspended)
  : list Call * (Suspended + Settled unit) :=
  match k with
  | AwaitExecute (Rejected e) => ([], inr (Rejected e))
  | AwaitExecute (Fulfilled (NotIterable _)) => ([], inr (Fulfilled tt))
  | AwaitExecute (Fulfilled (AsyncIterable iterator)) =>
      ([CallNext subscriber], inl (AwaitNext (iterator 0)))
  | AwaitNext (Rejected e) => ([], inr (Rejected e))
  | AwaitNext (Fulfilled r) =>
      match value r with
      | None => ([], inr (Fulfilled tt))
      | Some v =>
          match formatMessage (outbound subscriber v) with
          | Throw e => ([], inr (Rejected e))
          | Normal message =>
              ([CallSend subscriber message],
               inl (AwaitSend
                      (sendToConnection (connectionManager options)
                         (connection subscriber) message)))
          end
      end
  | AwaitSend p => ([], inr p)
  end.

Inductive TaskState : Type :=
| Pending (k : Suspended)
| Completed.

Record Task : Type :=
  mkTask { subscriberOf : ISubscriber; state : TaskState }.

(** Two tasks the handler cannot tell apart. *)
Inductive SameTask : Task -> Task -> Prop :=
| SameTask_refl t : SameTask t t
| SameTask_execute s p p' :
    sameFirstValue p p' ->
    SameTask (mkTask s (Pending (AwaitExecute p)))
      (mkTask s (Pending (AwaitExecute p')))
| SameTask_next s r r' :
    value r = value r' ->
    SameTask (mkTask s (Pending (AwaitNext (Fulfilled r))))
      (mkTask s (Pending (AwaitNext (Fulfilled r')))).

(** One promise of [promises]: the arrow function's promise with
    [.catch(e => console.log(e))] on it. *)
Definition resume (t : Task) : list Call * Task :=
  match state t with
  | Completed => ([], t)
  | Pending k =>
      let s := subscriberOf t in
      match resumeArrow s k with
      | (cs, inl k') => (cs, mkTask s (Pending k'))
      | (cs, inr (Fulfilled _)) => (cs, mkTask s Completed)
      | (cs, inr (Rejected e)) => (cs ++ [CallLog s e], mkTask s Completed)
      end
  end.

(** [subscribers.map(async subscriber => ...)]: every arrow function
    runs up to its first [await], so [execute] has been called. *)
Definition startTask (ev : ISubscriptionEvent) (subscriber : ISubscriber) : Task :=
  mkTask subscriber
    (Pending (AwaitExecute (execute (executeOptions ev subscriber)))).

Definition callExecute (ev : ISubscriptionEvent) (subscriber : ISubscriber) : Call :=
  CallExecute subscriber (executeOptions ev subscriber).

Definition isPending (t : Task) : bool :=
  match state t with
  | Pending _ => true
  | Completed => false
  end.

Definition countPending (ts : list Task) : nat :=
  List.length (filter isPending ts).

(** The k-th pending task, with the tasks before and after it. *)
Fixpoint selectPending (ts : list Task) (k : nat)
  : option (list Task * Task * list Task) :=
  match ts with
  | [] => None
  | t :: ts' =>
      let later k' :=
        match selectPending ts' k' with
        | Some (before, t', after) => Some (t :: before, t', after)
        | None => None
        end in
      if isPending t then
        match k with
        | 0 => Some ([], t, ts')
        | S k' => later k'
        end
      else later k
  end.

(** [await Promise.all(promises)]: the event loop resumes pending
    tasks, one at a time, until none is left. *)
Fixpoint settle (fuel : nat) (ts : list Task) (sched : Sched)
  : list Call * list Task * Sched :=
  match fuel with
  | 0 => ([], ts, sched)
  | S fuel' =>
      match selectPending ts (hd 0 sched mod countPending ts) with
      | None => ([], ts, sched)
      | Some (before, t, after) =>
          let (cs, t') := resume t in
          let '(tr, ts', sched') :=
            settle fuel' (before ++ t' :: after) (tl sched) in
          (cs ++ tr, ts', sched')
      end
  end.

(** The body of the [for await] loop for one page.  A task is
    resumed at most three times. *)
Definition runPage (ev : ISubscriptionEvent) (subscribers : list ISubscriber)
  : Async unit :=
  fun sched =>
    let promises := map (startTask ev) subscribers in
    let '(tr, _, sched') := settle (3 * List.length promises) promises sched in
    mkRun (map (callExecute ev) subscribers ++ tr) sched' (Fulfilled tt).

(** [for await (const subscribers of ...)] *)
Fixpoint forAwaitPages (ev : ISubscriptionEvent) (pages : PageStream)
  : Async unit :=
  match pages with
  | PagesDone => call (CallNextPage (event ev))
  | PagesThrow e => call (CallNextPage (event ev)) ;; reject e
  | PagesYield subscribers more =>
      call (CallNextPage (event ev)) ;;
      runPage ev subscribers ;;
      forAwaitPages ev more
  end.

Definition dispatch (ev : ISubscriptionEvent) : Async unit :=
  call (CallSubscribersByEventName (event ev)) ;;
  forAwaitPages ev (registryPages (subscriptionManager options) ev).

(** [for (const record of Records)] *)
Fixpoint processRecords (Records : list DynamoDBRecord) : Async unit :=
  match Records with
  | [] => ret tt
  | record :: more =>
      if negb (isInsert record) then processRecords more
      else
        match decode record with
        | Throw e => reject e
        | Normal ev => dispatch ev ;; processRecords more
        end
  end.

Definition processDynamoDBStreamEvents (Records : list DynamoDBRecord)
  : Async unit :=
  processRecords Records.

(** *** One subscriber, read straight through

    The arrow function run without interruption: the calls it makes
    after [execute], and how its promise settles. *)
Definition runSubscriber (ev : ISubscriptionEvent) (subscriber : ISubscriber)
  : list Call * Settled unit :=
  match execute (executeOptions ev subscriber) with
  | Rejected e => ([], Rejected e)
  | Fulfilled (NotIterable _) => ([], Fulfilled tt)
  | Fulfilled (AsyncIterable iterator) =>
      match iterator 0 with
      | Rejected e => ([CallNext subscriber], Rejected e)
      | Fulfilled r =>
          match value r with
          | None => ([CallNext subscriber], Fulfilled tt)
          | Some v =>
              match formatMessage (outbound subscriber v) with
              | Throw e => ([CallNext subscriber], Rejected e)
              | Normal message =>
                  ([CallNext subscriber; CallSend subscriber message],
                   sendToConnection (connectionManager options)
                     (connection subscriber) message)
              end
          end
      end
  end.

(** [.catch(e => console.log(e))] *)
Definition catchLog (subscriber : ISubscriber) (p : Settled unit) : list Call :=
  match p with
  | Fulfilled _ => []
  | Rejected e => [CallLog subscriber e]
  end.

(** Everything one subscriber's task does once [execute] is called. *)
Definition taskBody (ev : ISubscriptionEvent) (subscriber : ISubscriber) : list Call :=
  fst (runSubscriber ev subscriber)
  ++ catchLog subscriber (snd (runSubscriber ev subscriber)).

(** The calls a task still has to make. *)
Fixpoint callsLeft (n : nat) (t : Task) : list Call :=
  match n with
  | 0 => []
  | S n' => fst (resume t) ++ callsLeft n' (snd (resume t))
  end.

Definition stepsLeft (t : Task) : nat :=
  match state t with
  | Pending (AwaitExecute _) => 3
  | Pending (AwaitNext _) => 2
  | Pending (AwaitSend _) => 1
  | Completed => 0
  end.

Definition totalSteps (ts : list Task) : nat :=
  list_sum (map stepsLeft ts).

(** *** The shape of a run

    The runs of one page: [execute] is called for every subscriber in
    page order, then the tasks' remaining calls interleave. *)
Definition PageSpec (ev : ISubscriptionEvent) (subscribers : list ISubscriber)
  (tr : list Call) : Prop :=
  exists body,
    tr = map (callExecute ev) subscribers ++ body
    /\ Merge (map (taskBody ev) subscribers) body.

(** The runs of the page loop: a page is requested, all of its tasks
    run, and only then the next page is requested. *)
Fixpoint PagesSpec (ev : ISubscriptionEvent) (pages : PageStream)
  (tr : list Call) : Prop :=
  match pages with
  | PagesDone => tr = [CallNextPage (event ev)]
  | PagesThrow _ => tr = [CallNextPage (event ev)]
  | PagesYield subscribers more =>
      exists trPage trMore,
        tr = CallNextPage (event ev) :: trPage ++ trMore
        /\ PageSpec ev subscribers trPage
        /\ PagesSpec ev more trMore
  end.

(** The runs of a batch: record after record, each inserted event
    dispatched in full before the next record is looked at; the first
    failure of decoding or of the registry ends the run. *)
Fixpoint BatchSpec (Records : list DynamoDBRecord) (tr : list Call) : Prop :=
  match Records with
  | [] => tr = []
  | record :: more =>
      if isInsert record then
        match decode record with
        | Throw _ => tr = []
        | Normal ev =>
            exists trEvent trMore,
              tr = CallSubscribersByEventName (event ev) :: trEvent ++ trMore
              /\ PagesSpec ev (registryPages (subscriptionManager options) ev) trEvent
              /\ match pagesResult (registryPages (subscriptionManager options) ev) with
                 | Fulfilled _ => BatchSpec more trMore
                 | Rejected _ => trMore = []
                 end
        end
      else BatchSpec more tr
  end.

(** The calls of a run in which every task of a page runs to its end
    before the next one is resumed. *)
Fixpoint pagesCallsInOrder (ev : ISubscriptionEvent) (pages : PageStream)
  : list Call :=
  match pages with
  | PagesDone => [CallNextPage (event ev)]
  | PagesThrow _ => [CallNextPage (event ev)]
  | PagesYield subscribers more =>
      CallNextPage (event ev)
      :: (map (callExecute ev) subscribers
          ++ concat (map (taskBody ev) subscribers))
      ++ pagesCallsInOrder ev more
  end.

Fixpoint batchCallsInOrder (Records : list DynamoDBRecord) : list Call :=
  match Records with
  | [] => []
  | record :: more =>
      if isInsert record then
        match decode record with
        | Throw _ => []
        | Normal ev =>
            CallSubscribersByEventName (event ev)
            :: pagesCallsInOrder ev (registryPages (subscriptionManager options) ev)
            ++ match pagesResult (registryPages (subscriptionManager options) ev) with
               | Fulfilled _ => batchCallsInOrder more
               | Rejected _ => []
               end
        end
      else batchCallsInOrder more
  end.

(** *** Reading a run *)

Definition isSend (c : Call) : bool :=
  match c with CallSend _ _ => true | _ => false end.

Definition isNext (c : Call) : bool :=
  match c with CallNext _ => true | _ => false end.

Definition isLog (c : Call) : bool :=
  match c with CallLog _ _ => true | _ => false end.

(** The subscriber on whose behalf a call is made. *)
Definition ownerOf (c : Call) : option ISubscriber :=
  match c with
  | CallSubscribersByEventName _ => None
  | CallNextPage _ => None
  | CallExecute s _ => Some s
  | CallNext s => Some s
  | CallSend s _ => Some s
  | CallLog s _ => Some s
  end.

(** Keeps the registry calls and the calls of the subscribers chosen
    by [keep]. *)
Definition callKept (keep : ISubscriber -> bool) (c : Call) : bool :=
  match ownerOf c with
  | Some s => keep s
  | None => true
  end.

(** The registry with some subscribers taken out of every page. *)
Fixpoint filterPages (keep : ISubscriber -> bool) (pages : PageStream) : PageStream :=
  match pages with
  | PagesDone => PagesDone
  | PagesThrow e => PagesThrow e
  | PagesYield subscribers more =>
      PagesYield (filter keep subscribers) (filterPages keep more)
  end.

(** The calls the handler's own loops make: registry lookups, page
    requests and [execute]; the others are made by resumed tasks. *)
Definition isLoopCall (c : Call) : bool :=
  match c with
  | CallSubscribersByEventName _ => true
  | CallNextPage _ => true
  | CallExecute _ _ => true
  | _ => false
  end.

Definition isExecute (c : Call) : bool :=
  match c with CallExecute _ _ => true | _ => false end.

(** The calls made for the subscribers chosen by [keep], and no
    registry call. *)
Definition callOwnedBy (keep : ISubscriber -> bool) (c : Call) : bool :=
  match ownerOf c with
  | Some s => keep s
  | None => false
  end.

(** The pages of a registry answer, each with the event it is
    dispatched for. *)
Fixpoint pagesOf (ev : ISubscriptionEvent) (pages : PageStream)
  : list (ISubscriptionEvent * list ISubscriber) :=
  match pages with
  | PagesDone => []
  | PagesThrow _ => []
  | PagesYield subscribers more => (ev, subscribers) :: pagesOf ev more
  end.

(** The pages a batch leads to, in the order they are dispatched. *)
Fixpoint batchPages (Records : list DynamoDBRecord)
  : list (ISubscriptionEvent * list ISubscriber) :=
  match Records with
  | [] => []
  | record :: more =>
      if isInsert record then
        match decode record with
        | Throw _ => []
        | Normal ev =>
            pagesOf ev (registryPages (subscriptionManager options) ev)
            ++ match pagesResult (registryPages (subscriptionManager options) ev) with
               | Fulfilled _ => batchPages more
               | Rejected _ => []
               end
        end
      else batchPages more
  end.

(** The [sendToConnection] calls of one page, subscriber after
    subscriber. *)
Definition pageSends (page : ISubscriptionEvent * list ISubscriber) : list Call :=
  filter isSend (concat (map (taskBody (fst page)) (snd page))).

Fixpoint pageSubscribers (pages : PageStream) : list ISubscriber :=
  match pages with
  | PagesDone => []
  | PagesThrow _ => []
  | PagesYield subscribers more => subscribers ++ pageSubscribers more
  end.

End Processor.

(** [createDynamoDBEventProcessor(options)] returns the handler; the
    stream event carries [Records], the host passes [lambdaContext]. *)
Definition createDynamoDBEventProcessor
  {AttributeMap Structured Operation ExecutionResult : Type}
  {Schema Context_ LambdaContext : Type}
  (unmarshall : option AttributeMap -> Completion (@ISubscriptionEvent Structured))
  (execute :
     @ExecuteOptions Structured Operation Schema Context_ LambdaContext ->
     Settled (@ExecuteResult ExecutionResult))
  (getProtocol : bool -> Protocol)
  (formatMessage : @OutboundMessage ExecutionResult -> Completion string)
  (options : @DynamoDBEventProcessorOptions Operation Schema Context_)
  : list (@DynamoDBRecord AttributeMap) -> LambdaContext -> Async unit :=
  fun Records lambdaContext =>
    processDynamoDBStreamEvents unmarshall execute getProtocol formatMessage
      options lambdaContext Records.

(** ** A concrete deployment

    A small engine, registry and connection manager on which the
    handler can be run.  The engine reads the subscriber's operation as
    a description of what its resolver does. *)
Module Example.

Inductive Op : Type :=
| Subscribe (names : list string)
| SubscribeGuarded (names : list string)
| Reject
| Stall
| Invalid.

Definition Value : Type := @Payload nat.

Inductive Image : Type :=
| ImageOf (name : string) (p : Value).

Definition Subscriber : Type := @ISubscriber Op.
Definition Event : Type := @ISubscriptionEvent nat.
Definition Options : Type := @DynamoDBEventProcessorOptions Op unit unit.
Definition ExecOptions : Type := @ExecuteOptions nat Op unit unit unit.

Definition JSON_parse (s : string) : Completion Value :=
  if String.eqb s "1" then Normal (PayloadValue 1)
  else if String.eqb s "2" then Normal (PayloadValue 2)
  else Throw (SyntaxError "Unexpected token in JSON").

(** Stands for the AWS SDK's [DynamoDB.Converter.unmarshall] (a
    library, not code of this repository) on the images of stored
    events.  The converter does not throw on an absent image: it
    returns the empty object, which read as an event has neither name
    nor payload; these stand here as the empty name and the value 0,
    and no run below hands it an absent image. *)
Definition unmarshall (image : option Image) : Completion Event :=
  match image with
  | Some (ImageOf name p) => Normal {| event := name; payload := p |}
  | None => Normal {| event := ""; payload := PayloadValue 0 |}
  end.

(** Modelled from the spec: the execution engine ([./execute] is not
    among the sources).  It is given the subscriber's operation, its
    connection and the event source, and resolves to an async iterable
    of results, or to a result that is not iterable when the operation
    failed to start (a resolver or validation error); it can also fail
    itself, and so can the first pull.  The operation says which:
    [Subscribe names], the resolver subscribes to [names] through the
    [pubSub] it is given and a failure of that is thrown on;
    [SubscribeGuarded names], the same, but the failure is reported as
    an error result; [Reject], the engine throws; [Stall], the first
    pull fails; [Invalid], the operation does not validate. *)
Definition execute (opts : ExecOptions) : Settled (@ExecuteResult Value) :=
  match x_operation opts with
  | Subscribe names =>
      match asyncIterator JSON_parse (x_pubSub opts) (ManyNames names) with
      | Throw e => Rejected e
      | Normal it => Fulfilled (AsyncIterable it)
      end
  | SubscribeGuarded names =>
      match asyncIterator JSON_parse (x_pubSub opts) (ManyNames names) with
      | Throw e => Fulfilled (NotIterable (PayloadString "subscribe failed"))
      | Normal it => Fulfilled (AsyncIterable it)
      end
  | Reject => Rejected (Error "Cannot determine operation type")
  | Stall => Fulfilled (AsyncIterable (fun _ => Rejected (Error "resolver failed")))
  | Invalid => Fulfilled (NotIterable (PayloadString "validation failed"))
  end.

(** Modelled from the spec: the protocol vocabulary lookup
    ([./protocol/getProtocol] is not among the sources), from the
    legacy flag to the vocabulary with its data tag.  The two tags
    stand for the real ones. *)
Definition getProtocol (useLegacy : bool) : Protocol :=
  if useLegacy
  then {| SERVER_EVENT_TYPES := {| GQL_DATA := "GQL_DATA" |} |}
  else {| SERVER_EVENT_TYPES := {| GQL_DATA := "data" |} |}.

Definition showValue (v : Value) : string :=
  match v with
  | PayloadString s => s
  | PayloadValue 1 => "1"
  | PayloadValue 2 => "2"
  | PayloadValue _ => "n"
  end.

(** Modelled from the spec: the rendering of an outbound message
    ([./formatMessage] is not among the sources); the spec fixes its
    three fields, written out here one after the other. *)
Definition formatMessage (m : @OutboundMessage Value) : Completion string :=
  Normal (msg_type m ++ "/" ++ msg_id m ++ "/" ++ showValue (msg_payload m))%string.

Definition conn (name : string) (flag : option bool) : IConnection :=
  {| conn_id := name; data := {| useLegacyProtocol := flag |} |}.

Definition s1 : Subscriber :=
  {| connection := conn "c1" None;
     operation := Subscribe ["NOTE_ADDED"]; operationId := "op1" |}.
Definition s2 : Subscriber :=
  {| connection := conn "c2" (Some true);
     operation := Subscribe ["NOTE_REMOVED"]; operationId := "op2" |}.
Definition s3 : Subscriber :=
  {| connection := conn "gone" (Some true);
     operation := Subscribe ["NOTE_ADDED"; "NOTE_REMOVED"]; operationId := "op3" |}.
Definition s4 : Subscriber :=
  {| connection := conn "c4" (Some false);
     operation := Stall; operationId := "op4" |}.
Definition s5 : Subscriber :=
  {| connection := conn "c5" (Some true);
     operation := Subscribe ["NOTE_ADDED"]; operationId := "op5" |}.
Definition s6 : Subscriber :=
  {| connection := conn "c6" None;
     operation := Invalid; operationId := "op6" |}.
Definition s7 : Subscriber :=
  {| connection := conn "c7" None;
     operation := SubscribeGuarded ["NOTE_EDITED"]; operationId := "op7" |}.
Definition s8 : Subscriber :=
  {| connection := conn "c8" None;
     operation := Reject; operationId := "op8" |}.
Definition s9 : Subscriber :=
  {| connection := conn "c9" None;
     operation := Subscribe ["NOTE_EDITED"]; operationId := "op9" |}.
Definition s10 : Subscriber :=
  {| connection := conn "c10" None;
     operation := SubscribeGuarded ["NOTE_ADDED"]; operationId := "op10" |}.
Definition s11 : Subscriber :=
  {| connection := conn "c11" None;
     operation := Subscribe ["NOTE_SHARED"]; operationId := "op11" |}.
Definition s12 : Subscriber :=
  {| connection := conn "c12" (Some true);
     operation := Subscribe ["NOTE_SHARED"]; operationId := "op12" |}.

(** Every subscriber but the one on the given connection. *)
Definition notOn (name : string) (s : Subscriber) : bool :=
  negb (String.eqb (conn_id (connection s)) name).

Definition registry (name : string) : @PageStream Op :=
  if String.eqb name "NOTE_ADDED"
  then PagesYield [s1; s2; s3] (PagesYield [s4; s5] PagesDone)
  else if String.eqb name "NOTE_EDITED"
  then PagesYield [s6; s7; s1; s9] PagesDone
  else if String.eqb name "NOTE_LOST"
  then PagesYield [s8] (PagesThrow (Error "registry unreachable"))
  else if String.eqb name "NOTE_SHARED"
  then PagesYield [s11; s4; s6] (PagesYield [s8; s12] PagesDone)
  else PagesDone.

Definition send (c : IConnection) (message : string) : Settled unit :=
  if String.eqb (conn_id c) "gone"
  then Rejected (Error "connection gone")
  else Fulfilled tt.

Definition options : Options :=
  {| connectionManager := {| sendToConnection := send |};
     context := tt;
     schema := tt;
     subscriptionManager := {| subscribersByEventName := registry |} |}.

Definition handler (Records : list (@DynamoDBRecord Image)) : Async unit :=
  createDynamoDBEventProcessor unmarshall execute getProtocol formatMessage
    options Records tt.

Definition insert (name : string) (p : Value) : @DynamoDBRecord Image :=
  {| eventName := Some "INSERT";
     dynamodb := Some {| NewImage := Some (ImageOf name p) |} |}.

Definition modify (name : string) (p : Value) : @DynamoDBRecord Image :=
  {| eventName := Some "MODIFY";
     dynamodb := Some {| NewImage := Some (ImageOf name p) |} |}.

Definition noteAdded : Event :=
  {| event := "NOTE_ADDED"; payload := PayloadValue 1 |}.

(** What is sent, to which connection. *)
Definition sends (r : Run unit) : list (string * string) :=
  flat_map
    (fun c : @Call nat Op unit unit unit =>
       match c with
       | CallSend s message => [(conn_id (connection s), message)]
       | _ => []
       end)
    (calls r).

(** An inserted record that carries no [dynamodb] field. *)
Definition insertWithoutDynamodb : @DynamoDBRecord Image :=
  {| eventName := Some "INSERT"; dynamodb := None |}.

(** An event whose payload is the text of a number. *)
Definition noteAddedText : Event :=
  {| event := "NOTE_ADDED"; payload := PayloadString "1" |}.

(** An event whose payload is a string that is not JSON. *)
Definition unparsable (name : string) : Event :=
  {| event := name; payload := PayloadString "{oops" |}.

Definition forAwait (ev : Event) (pages : @PageStream Op) : Async unit :=
  forAwaitPages execute getProtocol formatMessage options tt ev pages.

(** The subscribers on the given connection. *)
Definition onConnection (name : string) (s : Subscriber) : bool :=
  String.eqb (conn_id (connection s)) name.

(** An engine that answers as [execute] does up to what the handler
    reads: its iterables mark the first value [done] and fail at every
    later pull, its plain results are replaced. *)
Definition executeOnce (opts : ExecOptions) : Settled (@ExecuteResult Value) :=
  match execute opts with
  | Rejected e => Rejected e
  | Fulfilled (NotIterable _) => Fulfilled (NotIterable (PayloadString "error"))
  | Fulfilled (AsyncIterable it) =>
      Fulfilled
        (AsyncIterable
           (fun k =>
              match k with
              | 0 =>
                  match it 0 with
                  | Rejected e => Rejected e
                  | Fulfilled r => Fulfilled {| value := value r; done := true |}
                  end
              | S _ => Rejected (Error "pulled twice")
              end))
  end.

(** A source over three stored events, the second of them unparsable. *)
Definition threeEvents : @PubSub nat :=
  {| events :=
       [ {| event := "NOTE_ADDED"; payload := PayloadString "1" |};
         {| event := "NOTE_REMOVED"; payload := PayloadString "{oops" |};
         {| event := "NOTE_ADDED"; payload := PayloadValue 2 |} ] |}.

End Example.

(** * Properties *)

Unset Implicit Arguments.

(** ** Interleavings *)

Section MergeFacts.

Context {A : Type}.

Lemma Merge_steps (ls1 ls2 : list (list A)) (pre l tr : list A) :
  Merge (ls1 ++ l :: ls2) tr ->
  Merge (ls1 ++ (pre ++ l) :: ls2) (pre ++ tr).
Proof.
  intros H. induction pre as [|x pre IH]; simpl.
  - exact H.
  - apply Merge_step. exact IH.
Qed.

Lemma concat_all_empty (ls : list (list A)) :
  Forall (fun l => l = []) ls -> concat ls = [].
Proof.
  induction 1 as [|l ls Hl _ IH]; simpl.
  - reflexivity.
  - rewrite Hl, IH. reflexivity.
Qed.

Lemma Merge_Permutation (ls : list (list A)) (tr : list A) :
  Merge ls tr -> Permutation (concat ls) tr.
Proof.
  induction 1 as [ls Hnil | ls1 x l ls2 tr _ IH].
  - rewrite concat_all_empty by assumption. constructor.
  - rewrite concat_app in *. simpl in *.
    apply Permutation_sym, Permutation_cons_app, Permutation_sym.
    exact IH.
Qed.

Lemma Merge_filter (P : A -> bool) (ls : list (list A)) (tr : list A) :
  Merge ls tr -> Merge (map (filter P) ls) (filter P tr).
Proof.
  induction 1 as [ls Hnil | ls1 x l ls2 tr _ IH].
  - simpl. apply Merge_done.
    induction Hnil as [|l ls Hl _ IHl]; simpl; constructor.
    + rewrite Hl. reflexivity.
    + exact IHl.
  - rewrite map_app in *. simpl in *.
    destruct (P x).
    + apply Merge_step. exact IH.
    + exact IH.
Qed.

Lemma Merge_concat (ls : list (list A)) : Merge ls (concat ls).
Proof.
  induction ls as [|l ls IH]; simpl.
  - apply Merge_done. constructor.
  - assert (G : forall tr, Merge ls tr -> Merge ([] :: ls) tr).
    { clear. intros tr H.
      induction H as [ls Hnil | ls1 x l ls2 tr _ IH'].
      - apply Merge_done. constructor; auto.
      - apply (@Merge_step A ([] :: ls1) x l ls2). exact IH'. }
    specialize (G _ IH).
    apply (@Merge_steps [] ls l [] (concat ls)) in G.
    rewrite app_nil_r in G. exact G.
Qed.

Lemma DropEmpty_app (a a' b b' : list (list A)) :
  DropEmpty a a' -> DropEmpty b b' -> DropEmpty (a ++ b) (a' ++ b').
Proof.
  intros Ha Hb. induction Ha; simpl.
  - exact Hb.
  - constructor. assumption.
  - constructor. assumption.
Qed.

Lemma DropEmpty_all_empty (ls ls' : list (list A)) :
  DropEmpty ls ls' ->
  Forall (fun l => l = []) ls -> Forall (fun l => l = []) ls'.
Proof.
  induction 1; intros Hall.
  - constructor.
  - inversion Hall; subst. constructor; auto.
  - inversion Hall; subst. auto.
Qed.

Lemma DropEmpty_split (ls1 ls2 : list (list A)) (x : A) (l : list A) ls' :
  DropEmpty (ls1 ++ (x :: l) :: ls2) ls' ->
  exists ls1' ls2',
    ls' = ls1' ++ (x :: l) :: ls2'
    /\ DropEmpty ls1 ls1' /\ DropEmpty ls2 ls2'.
Proof.
  revert ls'. induction ls1 as [|a ls1 IH]; simpl; intros ls' H.
  - inversion H as [ | l0 ls0 ls0' Hd | ]; subst.
    exists [], ls0'. repeat split; [constructor | assumption].
  - inversion H as [ | l0 ls0 ls0' Hd | ls0 ls0' Hd ]; subst.
    + destruct (IH _ Hd) as (l1 & l2 & -> & H1 & H2).
      exists (a :: l1), l2. repeat split; [constructor; assumption | assumption].
    + destruct (IH _ Hd) as (l1 & l2 & -> & H1 & H2).
      exists l1, l2. repeat split; [constructor; assumption | assumption].
Qed.

Lemma Merge_DropEmpty (ls : list (list A)) (tr : list A) :
  Merge ls tr -> forall ls', DropEmpty ls ls' -> Merge ls' tr.
Proof.
  induction 1 as [ls Hnil | ls1 x l ls2 tr _ IH]; intros ls' Hd.
  - apply Merge_done. eapply DropEmpty_all_empty; eassumption.
  - destruct (DropEmpty_split _ _ _ _ _ Hd) as (l1 & l2 & -> & H1 & H2).
    apply Merge_step. apply IH.
    apply DropEmpty_app; [assumption | constructor; assumption].
Qed.

End MergeFacts.

(** ** The tasks of a page *)

Section ProcessorFacts.

Context {AttributeMap Structured Operation ExecutionResult : Type}.
Context {Schema Context_ LambdaContext : Type}.

Variable unmarshall :
  option AttributeMap -> Completion (@ISubscriptionEvent Structured).
Variable execute :
  @ExecuteOptions Structured Operation Schema Context_ LambdaContext ->
  Settled (@ExecuteResult ExecutionResult).
Variable getProtocol : bool -> Protocol.
Variable formatMessage : @OutboundMessage ExecutionResult -> Completion string.
Variable options : @DynamoDBEventProcessorOptions Operation Schema Context_.
Variable lambdaContext : LambdaContext.

Local Abbreviation Task_ := (@Task Operation ExecutionResult).
Local Abbreviation Call_ :=
  (@Call Structured Operation Schema Context_ LambdaContext).
Local Abbreviation Event_ := (@ISubscriptionEvent Structured).
Local Abbreviation Subscriber_ := (@ISubscriber Operation).
Local Abbreviation resume_ :=
  (@resume Structured Operation ExecutionResult Schema Context_ LambdaContext
     getProtocol formatMessage options).
Local Abbreviation callsLeft_ :=
  (@callsLeft Structured Operation ExecutionResult Schema Context_
     LambdaContext getProtocol formatMessage options).
Local Abbreviation settle_ :=
  (@settle Structured Operation ExecutionResult Schema Context_ LambdaContext
     getProtocol formatMessage options).
Local Abbreviation startTask_ := (startTask execute options lambdaContext).
Local Abbreviation taskBody_ :=
  (taskBody execute getProtocol formatMessage options lambdaContext).
Local Abbreviation runSubscriber_ :=
  (runSubscriber execute getProtocol formatMessage options lambdaContext).
Local Abbreviation callExecute_ :=
  (@callExecute Structured Operation Schema Context_ LambdaContext
     options lambdaContext).
Local Abbreviation executeOptions_ :=
  (@executeOptions Structured Operation Schema Context_ LambdaContext
     options lambdaContext).
Local Abbreviation runPage_ :=
  (runPage execute getProtocol formatMessage options lambdaContext).
Local Abbreviation forAwaitPages_ :=
  (forAwaitPages execute getProtocol formatMessage options lambdaContext).
Local Abbreviation dispatch_ :=
  (dispatch execute getProtocol formatMessage options lambdaContext).
Local Abbreviation handler_ :=
  (processDynamoDBStreamEvents unmarshall execute getProtocol formatMessage
     options lambdaContext).
Local Abbreviation PageSpec_ :=
  (PageSpec execute getProtocol formatMessage options lambdaContext).
Local Abbreviation PagesSpec_ :=
  (PagesSpec execute getProtocol formatMessage options lambdaContext).
Local Abbreviation BatchSpec_ :=
  (BatchSpec unmarshall execute getProtocol formatMessage options lambdaContext).
Local Abbreviation decode_ := (decode unmarshall).
Local Abbreviation registry_ := (registryPages (subscriptionManager options)).
Local Abbreviation batchResult_ :=
  (batchResult unmarshall (subscriptionManager options)).

Local Abbreviation pagesCallsInOrder_ :=
  (pagesCallsInOrder execute getProtocol formatMessage options lambdaContext).
Local Abbreviation batchCallsInOrder_ :=
  (batchCallsInOrder unmarshall execute getProtocol formatMessage options
     lambdaContext).

Local Abbreviation recordSucceeds_ :=
  (recordSucceeds unmarshall (subscriptionManager options)).

Local Abbreviation batchPages_ := (batchPages unmarshall options).
Local Abbreviation pageSends_ :=
  (pageSends execute getProtocol formatMessage options lambdaContext).

#[local] Arguments callsLeft : simpl never.

Lemma selectPending_split (ts : list Task_) :
  forall k before t after,
    selectPending ts k = Some (before, t, after) ->
    ts = before ++ t :: after /\ isPending t = true.
Proof.
  induction ts as [|t0 ts IH]; simpl; intros k before t after H.
  - discriminate.
  - destruct (isPending t0) eqn:Hp.
    + destruct k as [|k].
      * inversion H; subst. split; [reflexivity | assumption].
      * destruct (selectPending ts k) as [[[b t'] a]|] eqn:Hs; [|discriminate].
        inversion H; subst.
        destruct (IH _ _ _ _ Hs) as [-> Ht]. split; [reflexivity | assumption].
    + destruct (selectPending ts k) as [[[b t'] a]|] eqn:Hs; [|discriminate].
      inversion H; subst.
      destruct (IH _ _ _ _ Hs) as [-> Ht]. split; [reflexivity | assumption].
Qed.

Lemma selectPending_none (ts : list Task_) :
  forall k, selectPending ts k = None -> countPending ts <= k.
Proof.
  unfold countPending.
  induction ts as [|t0 ts IH]; simpl; intros k H.
  - lia.
  - destruct (isPending t0) eqn:Hp; simpl.
    + destruct k as [|k]; [discriminate|].
      destruct (selectPending ts k) as [[[b t'] a]|] eqn:Hs; [discriminate|].
      specialize (IH _ Hs). lia.
    + destruct (selectPending ts k) as [[[b t'] a]|] eqn:Hs; [discriminate|].
      apply IH. assumption.
Qed.

Lemma no_pending_all_completed (ts : list Task_) :
  countPending ts = 0 -> Forall (fun t => isPending t = false) ts.
Proof.
  unfold countPending.
  induction ts as [|t ts IH]; simpl; intros H.
  - constructor.
  - destruct (isPending t) eqn:Hp; simpl in H; [discriminate|].
    constructor; auto.
Qed.

Lemma resume_completed (t : Task_) :
  isPending t = false -> resume_ t = ([], t).
Proof.
  unfold isPending, resume. destruct (state t); [discriminate | reflexivity].
Qed.

Lemma resume_progress (t : Task_) :
  isPending t = true -> stepsLeft (snd (resume_ t)) < stepsLeft t.
Proof.
  destruct t as [s [k|]]; [intros _ | discriminate].
  unfold resume, stepsLeft; simpl.
  destruct k as [[[it|r]|e]|[r|e]|[u|e]]; simpl; try lia.
  destruct (value r); simpl; try lia.
  destruct (formatMessage _); simpl; lia.
Qed.

Lemma stepsLeft_completed (t : Task_) :
  stepsLeft t = 0 -> isPending t = false.
Proof.
  unfold stepsLeft, isPending.
  destruct (state t) as [[p|p|p]|]; intros H; try discriminate; reflexivity.
Qed.

Lemma completed_stepsLeft (t : Task_) :
  isPending t = false -> stepsLeft t = 0.
Proof.
  unfold stepsLeft, isPending.
  destruct (state t) as [[p|p|p]|]; intros H; try discriminate; reflexivity.
Qed.

Lemma callsLeft_completed (n : nat) (t : Task_) :
  isPending t = false -> callsLeft_ n t = [].
Proof.
  intros H. induction n as [|n IH].
  - reflexivity.
  - change (callsLeft_ (S n) t)
      with (fst (resume_ t) ++ callsLeft_ n (snd (resume_ t))).
    rewrite (resume_completed t H). simpl. exact IH.
Qed.

Lemma callsLeft_more (n : nat) :
  forall t : Task_, stepsLeft t <= n -> callsLeft_ (S n) t = callsLeft_ n t.
Proof.
  induction n as [|n IH]; intros t H.
  - rewrite !callsLeft_completed; auto; apply stepsLeft_completed; lia.
  - change (callsLeft_ (S (S n)) t)
      with (fst (resume_ t) ++ callsLeft_ (S n) (snd (resume_ t))).
    change (callsLeft_ (S n) t)
      with (fst (resume_ t) ++ callsLeft_ n (snd (resume_ t))).
    f_equal. apply IH.
    destruct (isPending t) eqn:Hp.
    + pose proof (resume_progress t Hp). lia.
    + rewrite (resume_completed t Hp). simpl.
      rewrite (completed_stepsLeft t Hp). lia.
Qed.

Lemma stepsLeft_bound (t : Task_) : stepsLeft t <= 3.
Proof.
  unfold stepsLeft. destruct (state t) as [[p|p|p]|]; lia.
Qed.

Lemma callsLeft_resume (t : Task_) :
  callsLeft_ 3 t = fst (resume_ t) ++ callsLeft_ 3 (snd (resume_ t)).
Proof.
  change (callsLeft_ 3 t)
    with (fst (resume_ t) ++ callsLeft_ 2 (snd (resume_ t))).
  f_equal. symmetry. apply callsLeft_more.
  destruct (isPending t) eqn:Hp.
  - pose proof (resume_progress t Hp). pose proof (stepsLeft_bound t). lia.
  - rewrite (resume_completed t Hp). simpl.
    rewrite (completed_stepsLeft t Hp). lia.
Qed.

Lemma callsLeft_start (ev : Event_) (s : Subscriber_) :
  callsLeft_ 3 (startTask_ ev s) = taskBody_ ev s.
Proof.
  unfold taskBody, runSubscriber, startTask, callsLeft, resume; simpl.
  destruct (execute _) as [[it|r]|e]; simpl; try reflexivity.
  destruct (it 0) as [r|e]; simpl; try reflexivity.
  destruct (value r) as [v|]; simpl; try reflexivity.
  destruct (formatMessage _) as [m|e]; simpl; try reflexivity.
  destruct (sendToConnection _ _ _) as [u|e]; simpl; reflexivity.
Qed.

Lemma totalSteps_app (a b : list Task_) :
  totalSteps (a ++ b) = totalSteps a + totalSteps b.
Proof.
  unfold totalSteps. rewrite map_app, list_sum_app. reflexivity.
Qed.

Lemma totalSteps_start (ev : Event_) (subscribers : list Subscriber_) :
  totalSteps (map (startTask_ ev) subscribers) = 3 * length subscribers.
Proof.
  unfold totalSteps.
  induction subscribers as [|s l IH]; simpl in *; [reflexivity | lia].
Qed.

Lemma totalSteps_zero (ts : list Task_) :
  totalSteps ts = 0 -> Forall (fun t => isPending t = false) ts.
Proof.
  unfold totalSteps.
  induction ts as [|t ts IH]; simpl; intros H.
  - constructor.
  - constructor.
    + apply stepsLeft_completed. lia.
    + apply IH. lia.
Qed.

Lemma all_completed_callsLeft (ts : list Task_) :
  Forall (fun t => isPending t = false) ts ->
  Forall (fun l : list Call_ => l = []) (map (callsLeft_ 3) ts).
Proof.
  induction 1 as [|t ts Ht _ IH]; simpl; constructor.
  - apply callsLeft_completed. assumption.
  - assumption.
Qed.

(** Whatever the schedule, [Promise.all] sees every task through: the
    calls made meanwhile interleave what each task had left to do, and
    no task is left pending. *)
Lemma settle_spec (fuel : nat) :
  forall (ts : list Task_) (sched : Sched),
    totalSteps ts <= fuel ->
    Merge (map (callsLeft_ 3) ts) (fst (fst (settle_ fuel ts sched)))
    /\ Forall (fun t => isPending t = false) (snd (fst (settle_ fuel ts sched))).
Proof.
  induction fuel as [|fuel IH]; intros ts sched Hfuel.
  - simpl. assert (Hall := totalSteps_zero ts ltac:(lia)).
    split; [|assumption].
    apply Merge_done, all_completed_callsLeft. assumption.
  - simpl.
    destruct (selectPending ts (hd 0 sched mod countPending ts))
      as [[[before t] after]|] eqn:Hsel.
    + destruct (selectPending_split _ _ _ _ _ Hsel) as [-> Hp].
      pose proof (resume_progress t Hp) as Hlt.
      pose proof (callsLeft_resume t) as Hleft.
      destruct (resume_ t) as [cs t'] eqn:Hres. simpl in Hlt, Hleft.
      specialize (IH (before ++ t' :: after) (tl sched)).
      destruct (settle_ fuel (before ++ t' :: after) (tl sched))
        as [[tr ts'] sched'] eqn:Hset.
      simpl in *.
      destruct IH as [IHm IHc].
      { rewrite totalSteps_app in *. unfold totalSteps in *. simpl in *. lia. }
      split; [|assumption].
      rewrite map_app in *. simpl in *. rewrite Hleft.
      apply Merge_steps. assumption.
    + simpl.
      assert (Hz : countPending ts = 0).
      { apply selectPending_none in Hsel.
        destruct (countPending ts) as [|n] eqn:Hn; [reflexivity|].
        pose proof (Nat.mod_upper_bound (hd 0 sched) (S n) ltac:(lia)). lia. }
      assert (Hall := no_pending_all_completed ts Hz).
      split; [|assumption].
      apply Merge_done, all_completed_callsLeft. assumption.
Qed.

(** ** The shape of every run *)

Lemma runPage_result (ev : Event_) (subscribers : list Subscriber_) (sched : Sched) :
  result (runPage_ ev subscribers sched) = Fulfilled tt.
Proof.
  unfold runPage.
  destruct (settle_ _ _ sched) as [[tr ts] sched']. reflexivity.
Qed.

Lemma runPage_spec (ev : Event_) (subscribers : list Subscriber_) (sched : Sched) :
  PageSpec_ ev subscribers (calls (runPage_ ev subscribers sched)).
Proof.
  unfold runPage, PageSpec.
  pose proof (settle_spec (3 * length (map (startTask_ ev) subscribers))
                (map (startTask_ ev) subscribers) sched) as H.
  destruct (settle_ _ _ sched) as [[tr ts] sched']. simpl in *.
  exists tr. split; [reflexivity|].
  destruct H as [H _].
  { rewrite totalSteps_start, length_map. lia. }
  rewrite map_map in H.
  rewrite (map_ext _ (taskBody_ ev)) in H; [exact H|].
  intros s. apply callsLeft_start.
Qed.

Lemma forAwaitPages_spec (ev : Event_) (pages : PageStream) :
  forall sched,
    PagesSpec_ ev pages (calls (forAwaitPages_ ev pages sched))
    /\ result (forAwaitPages_ ev pages sched) = pagesResult pages.
Proof.
  induction pages as [|e|subscribers more IH]; intros sched.
  - split; reflexivity.
  - split; reflexivity.
  - simpl. unfold bind at 1. simpl.
    unfold bind at 1. rewrite runPage_result. simpl.
    destruct (IH (rest (runPage_ ev subscribers sched))) as [IHs IHr].
    split; [|exact IHr].
    exists (calls (runPage_ ev subscribers sched)).
    eexists. split; [reflexivity|].
    split; [apply runPage_spec | exact IHs].
Qed.

Lemma dispatch_run (ev : Event_) (sched : Sched) :
  dispatch_ ev sched
  = mkRun
      (CallSubscribersByEventName (event ev)
       :: calls (forAwaitPages_ ev (registry_ ev) sched))
      (rest (forAwaitPages_ ev (registry_ ev) sched))
      (result (forAwaitPages_ ev (registry_ ev) sched)).
Proof.
  unfold dispatch, bind, call. simpl.
  destruct (forAwaitPages_ ev (registry_ ev) sched) as [cs r [u|e]]; reflexivity.
Qed.

(** Every run of the handler, under every schedule, has the shape of
    [BatchSpec], and its promise settles as [batchResult] says. *)
Lemma handler_spec (Records : list (@DynamoDBRecord AttributeMap)) :
  forall sched,
    BatchSpec_ Records (calls (handler_ Records sched))
    /\ result (handler_ Records sched) = batchResult_ Records.
Proof.
  unfold processDynamoDBStreamEvents.
  induction Records as [|record more IH]; intros sched.
  - split; reflexivity.
  - simpl. destruct (isInsert record); simpl; [|apply IH].
    destruct (decode_ record) as [ev|e]; [|split; reflexivity].
    unfold bind. rewrite dispatch_run. simpl.
    destruct (forAwaitPages_spec ev (registry_ ev) sched) as [Hs Hr].
    rewrite Hr.
    destruct (pagesResult (registry_ ev)) as [u|e] eqn:Hres; simpl.
    + destruct (IH (rest (forAwaitPages_ ev (registry_ ev) sched))) as [IHs IHr].
      split; [|exact IHr].
      eexists. eexists. split; [reflexivity|].
      split; [exact Hs | exact IHs].
    + split; [|reflexivity].
      exists (calls (forAwaitPages_ ev (registry_ ev) sched)), [].
      rewrite app_nil_r.
      split; [reflexivity|]. split; [exact Hs | reflexivity].
Qed.

Lemma PageSpec_Permutation (ev : Event_) (subscribers : list Subscriber_)
  (tr : list Call_) :
  PageSpec_ ev subscribers tr ->
  Permutation tr
    (map (callExecute_ ev) subscribers ++ concat (map (taskBody_ ev) subscribers)).
Proof.
  intros (body & -> & Hm).
  apply Permutation_app_head, Permutation_sym, Merge_Permutation. exact Hm.
Qed.

Lemma PagesSpec_Permutation (ev : Event_) (pages : PageStream) :
  forall tr : list Call_,
    PagesSpec_ ev pages tr -> Permutation tr (pagesCallsInOrder_ ev pages).
Proof.
  induction pages as [|e|subscribers more IH]; simpl; intros tr H.
  - subst. apply Permutation_refl.
  - subst. apply Permutation_refl.
  - destruct H as (trPage & trMore & -> & Hp & Hm).
    constructor. apply Permutation_app.
    + apply PageSpec_Permutation. exact Hp.
    + apply IH. exact Hm.
Qed.

Lemma BatchSpec_Permutation (Records : list (@DynamoDBRecord AttributeMap)) :
  forall tr : list Call_,
    BatchSpec_ Records tr -> Permutation tr (batchCallsInOrder_ Records).
Proof.
  induction Records as [|record more IH]; simpl; intros tr H.
  - subst. constructor.
  - destruct (isInsert record); [|apply IH; exact H].
    destruct (decode_ record) as [ev|e]; [|subst; constructor].
    destruct H as (trEvent & trMore & -> & Hp & Hm).
    constructor. apply Permutation_app.
    + apply PagesSpec_Permutation. exact Hp.
    + destruct (pagesResult (registry_ ev)).
      * apply IH. exact Hm.
      * subst. constructor.
Qed.

(** A property of calls that every registry call and every call of
    every task has, holds of all the calls of every run. *)
Lemma pagesCallsInOrder_Forall (P : Call_ -> Prop) (ev : Event_) :
  P (CallNextPage (event ev)) ->
  (forall s, P (callExecute_ ev s) /\ Forall P (taskBody_ ev s)) ->
  forall pages, Forall P (pagesCallsInOrder_ ev pages).
Proof.
  intros Hn Ht pages.
  induction pages as [|e|subscribers more IH]; simpl.
  - constructor; [exact Hn | constructor].
  - constructor; [exact Hn | constructor].
  - constructor; [exact Hn|].
    apply Forall_app. split; [|exact IH].
    apply Forall_app. split.
    + apply Forall_forall. intros c Hc.
      apply in_map_iff in Hc. destruct Hc as (s & <- & _). apply Ht.
    + apply Forall_forall. intros c Hc.
      apply in_concat in Hc. destruct Hc as (l & Hl & Hc).
      apply in_map_iff in Hl. destruct Hl as (s & <- & _).
      destruct (Ht s) as [_ Hb].
      rewrite Forall_forall in Hb. apply Hb. exact Hc.
Qed.

Lemma batchCallsInOrder_Forall (P : Call_ -> Prop)
  (Records : list (@DynamoDBRecord AttributeMap)) :
  (forall name, P (CallSubscribersByEventName name)) ->
  (forall name, P (CallNextPage name)) ->
  (forall record ev s,
      In record Records -> isInsert record = true ->
      decode_ record = Normal ev ->
      P (callExecute_ ev s) /\ Forall P (taskBody_ ev s)) ->
  Forall P (batchCallsInOrder_ Records).
Proof.
  intros Hs Hn.
  induction Records as [|record more IH]; simpl; intros Ht.
  - constructor.
  - assert (IH' : Forall P (batchCallsInOrder_ more)).
    { apply IH. intros r ev s Hin. apply Ht. right. exact Hin. }
    destruct (isInsert record) eqn:Hi; [|exact IH'].
    destruct (decode_ record) as [ev|e] eqn:Hd; [|constructor].
    constructor; [apply Hs|].
    apply Forall_app. split.
    + apply pagesCallsInOrder_Forall; [apply Hn|].
      intros s. apply (Ht record ev s); [left; reflexivity | exact Hi | exact Hd].
    + destruct (pagesResult (registry_ ev)); [exact IH' | constructor].
Qed.

Lemma handler_calls_Forall (P : Call_ -> Prop)
  (Records : list (@DynamoDBRecord AttributeMap)) (sched : Sched) :
  (forall name, P (CallSubscribersByEventName name)) ->
  (forall name, P (CallNextPage name)) ->
  (forall record ev s,
      In record Records -> isInsert record = true ->
      decode_ record = Normal ev ->
      P (callExecute_ ev s) /\ Forall P (taskBody_ ev s)) ->
  Forall P (calls (handler_ Records sched)).
Proof.
  intros Hs Hn Ht.
  destruct (handler_spec Records sched) as [Hspec _].
  apply BatchSpec_Permutation in Hspec.
  apply Forall_forall. intros c Hc.
  pose proof (batchCallsInOrder_Forall P Records Hs Hn Ht) as Hall.
  rewrite Forall_forall in Hall. apply Hall.
  eapply Permutation_in; eassumption.
Qed.

(** ** Every interleaving is a run *)

Lemma Merge_nil_inv {A : Type} (ls : list (list A)) :
  Merge ls [] -> Forall (fun l => l = []) ls.
Proof.
  intros H. inversion H. assumption.
Qed.

Lemma countPending_app (a b : list Task_) :
  countPending (a ++ b) = countPending a + countPending b.
Proof.
  unfold countPending. rewrite filter_app, length_app. reflexivity.
Qed.

Lemma selectPending_at (before : list Task_) (t : Task_) (after : list Task_) :
  isPending t = true ->
  selectPending (before ++ t :: after) (countPending before)
  = Some (before, t, after).
Proof.
  intros Ht. unfold countPending.
  induction before as [|t0 before IH]; simpl.
  - rewrite Ht. reflexivity.
  - destruct (isPending t0); simpl; rewrite IH; reflexivity.
Qed.

Lemma selectPending_index (ts : list Task_) :
  forall k before t after,
    selectPending ts k = Some (before, t, after) ->
    countPending before = k.
Proof.
  unfold countPending.
  induction ts as [|t0 ts IH]; simpl; intros k before t after H.
  - discriminate.
  - destruct (isPending t0) eqn:Hp.
    + destruct k as [|k].
      * inversion H; subst. reflexivity.
      * destruct (selectPending ts k) as [[[b t'] a]|] eqn:Hs; [|discriminate].
        inversion H; subst. simpl. rewrite Hp. simpl.
        f_equal. apply (IH _ _ _ _ Hs).
    + destruct (selectPending ts k) as [[[b t'] a]|] eqn:Hs; [|discriminate].
      inversion H; subst. simpl. rewrite Hp.
      apply (IH _ _ _ _ Hs).
Qed.

Lemma selectPending_no_pending (ts : list Task_) (k : nat) :
  countPending ts = 0 -> selectPending ts k = None.
Proof.
  unfold countPending. revert k.
  induction ts as [|t ts IH]; simpl; intros k H.
  - reflexivity.
  - destruct (isPending t); simpl in H; [discriminate|].
    rewrite (IH k H). reflexivity.
Qed.

(** A resumed task makes at most one call, and when it makes none it
    has nothing left to do. *)
Lemma resume_emits (t : Task_) :
  (fst (resume_ t) = [] /\ callsLeft_ 3 (snd (resume_ t)) = [])
  \/ exists c, fst (resume_ t) = [c].
Proof.
  destruct t as [s [k|]].
  - unfold resume; simpl.
    destruct k as [[[it|r]|e]|[r|e]|[u|e]]; simpl;
      try (left; split; reflexivity); try (right; eexists; reflexivity).
    destruct (value r); simpl; try (left; split; reflexivity).
    destruct (formatMessage _); simpl; right; eexists; reflexivity.
  - left. split; reflexivity.
Qed.

Lemma callsLeft_pending (t : Task_) (c : Call_) (l : list Call_) :
  callsLeft_ 3 t = c :: l ->
  isPending t = true
  /\ fst (resume_ t) = [c] /\ callsLeft_ 3 (snd (resume_ t)) = l.
Proof.
  intros H. split.
  - destruct (isPending t) eqn:Hp; [reflexivity|].
    rewrite (callsLeft_completed 3 t Hp) in H. discriminate.
  - rewrite callsLeft_resume in H.
    destruct (resume_emits t) as [[H1 H2]|[c' H1]]; rewrite H1 in H.
    + rewrite H2 in H. discriminate.
    + simpl in H. inversion H; subst. split; [assumption | reflexivity].
Qed.

Lemma settle_no_pending (fuel : nat) (ts : list Task_) (sched : Sched) :
  countPending ts = 0 -> settle_ fuel ts sched = ([], ts, sched).
Proof.
  intros H. destruct fuel; simpl.
  - reflexivity.
  - rewrite (selectPending_no_pending ts _ H). reflexivity.
Qed.

Lemma settle_pick (fuel : nat) (before : list Task_) (t : Task_)
  (after : list Task_) (sched : Sched) :
  isPending t = true ->
  settle_ (S fuel) (before ++ t :: after) (countPending before :: sched)
  = (fst (resume_ t)
       ++ fst (fst (settle_ fuel (before ++ snd (resume_ t) :: after) sched)),
     snd (fst (settle_ fuel (before ++ snd (resume_ t) :: after) sched)),
     snd (settle_ fuel (before ++ snd (resume_ t) :: after) sched)).
Proof.
  intros Ht. simpl.
  rewrite Nat.mod_small.
  - rewrite (selectPending_at before t after Ht).
    destruct (resume_ t) as [cs t']. simpl.
    destruct (settle_ fuel (before ++ t' :: after) sched) as [[tr ts'] sched'].
    reflexivity.
  - rewrite countPending_app.
    assert (Hc : countPending (t :: after) = S (countPending after)).
    { unfold countPending. cbn [filter]. rewrite Ht. reflexivity. }
    lia.
Qed.

Lemma totalSteps_resume (before : list Task_) (t : Task_) (after : list Task_) :
  isPending t = true ->
  totalSteps (before ++ snd (resume_ t) :: after)
  < totalSteps (before ++ t :: after).
Proof.
  intros Ht. rewrite !totalSteps_app. unfold totalSteps. simpl.
  pose proof (resume_progress t Ht). lia.
Qed.

(** Tasks with nothing left to call are seen through silently. *)
Lemma settle_silent (n : nat) :
  forall ts : list Task_,
    totalSteps ts <= n ->
    Forall (fun l : list Call_ => l = []) (map (callsLeft_ 3) ts) ->
    exists picks,
      forall fuel sched,
        totalSteps ts <= fuel ->
        exists ts', settle_ fuel ts (picks ++ sched) = ([], ts', sched).
Proof.
  induction n as [|n IH]; intros ts Hn Hall.
  - exists []. intros fuel sched _. exists ts.
    apply settle_no_pending.
    pose proof (totalSteps_zero ts ltac:(lia)) as Hc.
    unfold countPending. clear -Hc.
    induction Hc as [|t ts Ht _ IHc]; simpl; [reflexivity|].
    rewrite Ht. exact IHc.
  - destruct (selectPending ts 0) as [[[before t] after]|] eqn:Hsel.
    + destruct (selectPending_split _ _ _ _ _ Hsel) as [-> Ht].
      pose proof (selectPending_index _ _ _ _ _ Hsel) as Hb.
      pose proof (totalSteps_resume before t after Ht) as Hlt.
      assert (Ht0 : callsLeft_ 3 t = []).
      { rewrite map_app in Hall. apply Forall_app in Hall.
        destruct Hall as [_ Hall]. simpl in Hall.
        inversion Hall; subst. assumption. }
      assert (Hr : fst (resume_ t) = [] /\ callsLeft_ 3 (snd (resume_ t)) = []).
      { rewrite callsLeft_resume in Ht0.
        apply app_eq_nil in Ht0. exact Ht0. }
      destruct Hr as [Hr1 Hr2].
      destruct (IH (before ++ snd (resume_ t) :: after)) as [picks Hp].
      { lia. }
      { rewrite map_app in *. simpl in *.
        apply Forall_app in Hall. destruct Hall as [Ha Hb'].
        apply Forall_app. split; [exact Ha|].
        inversion Hb'; subst. constructor; assumption. }
      exists (0 :: picks). intros fuel sched Hfuel.
      destruct fuel as [|fuel]; [lia|].
      destruct (Hp fuel sched ltac:(lia)) as [ts' Hs'].
      exists ts'.
      change ((0 :: picks) ++ sched) with (0 :: (picks ++ sched)).
      rewrite <- Hb at 1.
      rewrite (settle_pick fuel before t after (picks ++ sched) Ht).
      rewrite Hs', Hr1. reflexivity.
    + exists []. intros fuel sched _. exists ts.
      apply settle_no_pending.
      apply selectPending_none in Hsel. lia.
Qed.

(** Every interleaving of what the tasks have left to do is what some
    schedule makes of them. *)
Lemma settle_complete (ls : list (list Call_)) (tr : list Call_) :
  Merge ls tr ->
  forall ts : list Task_,
    map (callsLeft_ 3) ts = ls ->
    exists picks,
      forall fuel sched,
        totalSteps ts <= fuel ->
        exists ts', settle_ fuel ts (picks ++ sched) = (tr, ts', sched).
Proof.
  induction 1 as [ls Hnil | ls1 c l ls2 tr _ IH]; intros ts Hts.
  - subst ls. apply (settle_silent (totalSteps ts)); [lia | exact Hnil].
  - apply map_eq_app in Hts. destruct Hts as (before & rest' & -> & Hb & Hr).
    apply map_eq_cons in Hr. destruct Hr as (t & after & -> & Ht & Ha).
    destruct (callsLeft_pending t c l Ht) as (Hp & Hr1 & Hr2).
    destruct (IH (before ++ snd (resume_ t) :: after)) as [picks Hpicks].
    { rewrite map_app. simpl. rewrite Hb, Hr2, Ha. reflexivity. }
    pose proof (totalSteps_resume before t after Hp) as Hlt.
    exists (countPending before :: picks). intros fuel sched Hfuel.
    destruct fuel as [|fuel]; [lia|].
    destruct (Hpicks fuel sched ltac:(lia)) as [ts' Hs'].
    exists ts'.
    change ((countPending before :: picks) ++ sched)
      with (countPending before :: (picks ++ sched)).
    rewrite (settle_pick fuel before t after (picks ++ sched) Hp).
    rewrite Hs', Hr1. reflexivity.
Qed.

Lemma runPage_complete (ev : Event_) (subscribers : list Subscriber_)
  (tr : list Call_) :
  PageSpec_ ev subscribers tr ->
  exists picks,
    forall sched,
      runPage_ ev subscribers (picks ++ sched) = mkRun tr sched (Fulfilled tt).
Proof.
  intros (body & -> & Hm).
  destruct (settle_complete _ _ Hm (map (startTask_ ev) subscribers))
    as [picks Hp].
  { rewrite map_map. apply map_ext. intros s. apply callsLeft_start. }
  exists picks. intros sched. unfold runPage.
  destruct (Hp (3 * length (map (startTask_ ev) subscribers)) sched)
    as [ts' Hs].
  { rewrite totalSteps_start, length_map. lia. }
  rewrite Hs. reflexivity.
Qed.

Lemma forAwaitPages_complete (ev : Event_) (pages : PageStream) :
  forall tr : list Call_,
    PagesSpec_ ev pages tr ->
    exists picks,
      forall sched,
        forAwaitPages_ ev pages (picks ++ sched)
        = mkRun tr sched (pagesResult pages).
Proof.
  induction pages as [|e|subscribers more IH]; simpl; intros tr H.
  - subst. exists []. intros sched. reflexivity.
  - subst. exists []. intros sched. reflexivity.
  - destruct H as (trPage & trMore & -> & Hp & Hm).
    destruct (runPage_complete ev subscribers trPage Hp) as [picks1 H1].
    destruct (IH trMore Hm) as [picks2 H2].
    exists (picks1 ++ picks2). intros sched.
    rewrite <- app_assoc.
    unfold bind, call. simpl. rewrite H1. simpl. rewrite H2. reflexivity.
Qed.

Lemma handler_complete (Records : list (@DynamoDBRecord AttributeMap)) :
  forall tr : list Call_,
    BatchSpec_ Records tr ->
    exists picks,
      forall sched,
        handler_ Records (picks ++ sched)
        = mkRun tr sched (batchResult_ Records).
Proof.
  unfold processDynamoDBStreamEvents.
  induction Records as [|record more IH]; simpl; intros tr H.
  - subst. exists []. intros sched. reflexivity.
  - destruct (isInsert record); simpl; [|apply IH; exact H].
    destruct (decode_ record) as [ev|e].
    + destruct H as (trEvent & trMore & -> & Hp & Hm).
      destruct (forAwaitPages_complete ev (registry_ ev) trEvent Hp)
        as [picks1 H1].
      destruct (pagesResult (registry_ ev)) as [u|e] eqn:Hres.
      * destruct (IH trMore Hm) as [picks2 H2].
        exists (picks1 ++ picks2). intros sched.
        rewrite <- app_assoc.
        unfold bind. rewrite dispatch_run, H1. simpl. rewrite H2. reflexivity.
      * subst trMore. exists picks1. intros sched.
        unfold bind. rewrite dispatch_run, H1. simpl.
        rewrite app_nil_r. reflexivity.
    + subst. exists []. intros sched. reflexivity.
Qed.

(** [BatchSpec] is exact: its lists of calls are those of the runs. *)
Lemma BatchSpec_exact (Records : list (@DynamoDBRecord AttributeMap))
  (tr : list Call_) :
  BatchSpec_ Records tr <-> exists sched, calls (handler_ Records sched) = tr.
Proof.
  split.
  - intros H. destruct (handler_complete Records tr H) as [picks Hp].
    exists (picks ++ []). rewrite Hp. reflexivity.
  - intros [sched <-]. apply handler_spec.
Qed.

(** When [Promise.all] resolves, every task of the page has completed:
    fulfilled, or rejected and logged. *)
Lemma page_tasks_all_completed (ev : Event_) (subscribers : list Subscriber_)
  (sched : Sched) :
  Forall (fun t => state t = Completed)
    (snd (fst (settle_ (3 * length (map (startTask_ ev) subscribers))
                 (map (startTask_ ev) subscribers) sched))).
Proof.
  destruct (settle_spec (3 * length (map (startTask_ ev) subscribers))
              (map (startTask_ ev) subscribers) sched) as [_ H].
  { rewrite totalSteps_start, length_map. lia. }
  eapply Forall_impl; [|exact H].
  intros t. unfold isPending. destruct (state t); [discriminate | reflexivity].
Qed.

(** ** The handler's promise *)

Lemma batchResult_succeeds (Records : list (@DynamoDBRecord AttributeMap)) :
  forallb recordSucceeds_ Records = true ->
  batchResult_ Records = Fulfilled tt.
Proof.
  induction Records as [|record more IH]; simpl; intros H.
  - reflexivity.
  - apply andb_true_iff in H. destruct H as [Hr Hm].
    unfold recordSucceeds in Hr.
    destruct (isInsert record); [|apply IH; exact Hm].
    destruct (decode_ record) as [ev|e]; [|discriminate].
    destruct (pagesResult (registry_ ev)) as [u|e]; [|discriminate].
    apply IH. exact Hm.
Qed.

(** C1.  Whatever [execute], the first pull, [formatMessage] and
    [sendToConnection] do for whichever subscribers (they are
    arbitrary here, so they may reject or throw), the way the
    handler's promise settles is decided by decoding and by the
    subscriber registry alone; when neither of these fails on any
    inserted record of the batch, the promise is fulfilled. *)
Theorem handler_resolves_despite_subscriber_failures
  (Records : list (@DynamoDBRecord AttributeMap)) (sched : Sched) :
  result (handler_ Records sched) = batchResult_ Records
  /\ (forallb recordSucceeds_ Records = true ->
      result (handler_ Records sched) = Fulfilled tt).
Proof.
  destruct (handler_spec Records sched) as [_ Hr].
  split; [exact Hr|].
  intros H. rewrite Hr. apply batchResult_succeeds. exact H.
Qed.

Lemma isInsert_false (record : @DynamoDBRecord AttributeMap) :
  eventName record <> Some "INSERT" -> isInsert record = false.
Proof.
  unfold isInsert. destruct (eventName record) as [name|]; intros H.
  - apply String.eqb_neq. intros ->. apply H. reflexivity.
  - reflexivity.
Qed.

(** C4.  A record whose [eventName] is not [INSERT] (another name, or
    none) is skipped: the run on the batch is the run on the records
    after it, with the same calls, the same result and the same
    schedule left; on its own the record causes no call at all, so no
    subscriber lookup, no [execute] and no [sendToConnection]. *)
Theorem non_insert_record_is_skipped
  (record : @DynamoDBRecord AttributeMap)
  (more : list (@DynamoDBRecord AttributeMap)) (sched : Sched) :
  eventName record <> Some "INSERT" ->
  handler_ (record :: more) sched = handler_ more sched
  /\ calls (handler_ [record] sched) = []
  /\ result (handler_ [record] sched) = Fulfilled tt.
Proof.
  intros H. apply isInsert_false in H.
  unfold processDynamoDBStreamEvents. simpl. rewrite H. simpl.
  repeat split; reflexivity.
Qed.

(** C8.  Under every schedule the calls of a run are laid out record
    by record in batch order; within a record, page by page: the
    request for a page, then the [execute] calls of that page's
    subscribers in page order, then an interleaving of everything
    these tasks still do (their pulls, sends and logged failures, each
    task's calls complete and in its own order), and only after that
    the request for the next page, or the next record. *)
Theorem records_and_pages_are_sequential
  (Records : list (@DynamoDBRecord AttributeMap)) (sched : Sched) :
  BatchSpec_ Records (calls (handler_ Records sched))
  /\ forall (ev : Event_) (subscribers : list Subscriber_) (sched' : Sched),
      Forall (fun t => state t = Completed)
        (snd (fst (settle_ (3 * length (map (startTask_ ev) subscribers))
                     (map (startTask_ ev) subscribers) sched'))).
Proof.
  split; [apply handler_spec | apply page_tasks_all_completed].
Qed.

(** ** One subscriber among the others *)

Lemma taskBody_owner (ev : Event_) (s : Subscriber_) :
  Forall (fun c : Call_ => ownerOf c = Some s) (taskBody_ ev s).
Proof.
  unfold taskBody, runSubscriber.
  destruct (execute _) as [[it|r]|e]; simpl; repeat constructor.
  destruct (it 0) as [r|e]; simpl; repeat constructor.
  destruct (value r) as [v|]; simpl; repeat constructor.
  destruct (formatMessage _) as [m|e]; simpl; repeat constructor.
  destruct (sendToConnection _ _ _) as [u|e]; simpl; repeat constructor.
Qed.

Lemma filter_callKept_taskBody (keep : Subscriber_ -> bool) (ev : Event_)
  (s : Subscriber_) :
  filter (callKept keep) (taskBody_ ev s)
  = if keep s then taskBody_ ev s else [].
Proof.
  pose proof (taskBody_owner ev s) as H.
  induction H as [|c l Hc _ IH]; simpl.
  - destruct (keep s); reflexivity.
  - unfold callKept at 1. rewrite Hc, IH. destruct (keep s); reflexivity.
Qed.

Lemma filter_callKept_callExecute (keep : Subscriber_ -> bool) (ev : Event_)
  (subscribers : list Subscriber_) :
  filter (callKept keep) (map (callExecute_ ev) subscribers)
  = map (callExecute_ ev) (filter keep subscribers).
Proof.
  induction subscribers as [|s l IH]; simpl.
  - reflexivity.
  - unfold callKept at 1. simpl. destruct (keep s); simpl; rewrite IH; reflexivity.
Qed.

Lemma DropEmpty_taskBodies (keep : Subscriber_ -> bool) (ev : Event_)
  (subscribers : list Subscriber_) :
  DropEmpty
    (map (filter (callKept keep)) (map (taskBody_ ev) subscribers))
    (map (taskBody_ ev) (filter keep subscribers)).
Proof.
  induction subscribers as [|s l IH]; simpl.
  - constructor.
  - rewrite filter_callKept_taskBody. destruct (keep s); simpl.
    + apply DropEmpty_keep. exact IH.
    + apply DropEmpty_drop. exact IH.
Qed.

Lemma PageSpec_filter (keep : Subscriber_ -> bool) (ev : Event_)
  (subscribers : list Subscriber_) (tr : list Call_) :
  PageSpec_ ev subscribers tr ->
  PageSpec_ ev (filter keep subscribers) (filter (callKept keep) tr).
Proof.
  intros (body & -> & Hm).
  exists (filter (callKept keep) body). split.
  - rewrite filter_app, filter_callKept_callExecute. reflexivity.
  - eapply Merge_DropEmpty.
    + apply Merge_filter. exact Hm.
    + apply DropEmpty_taskBodies.
Qed.

Lemma PagesSpec_filter (keep : Subscriber_ -> bool) (ev : Event_)
  (pages : PageStream) :
  forall tr : list Call_,
    PagesSpec_ ev pages tr ->
    PagesSpec_ ev (filterPages keep pages) (filter (callKept keep) tr).
Proof.
  induction pages as [|e|subscribers more IH]; simpl; intros tr H.
  - subst. reflexivity.
  - subst. reflexivity.
  - destruct H as (trPage & trMore & -> & Hp & Hm).
    exists (filter (callKept keep) trPage), (filter (callKept keep) trMore).
    split; [|split].
    + simpl. unfold callKept at 1. simpl. rewrite filter_app. reflexivity.
    + apply PageSpec_filter. exact Hp.
    + apply IH. exact Hm.
Qed.

Lemma pagesResult_filterPages (keep : Subscriber_ -> bool) (pages : PageStream) :
  pagesResult (filterPages keep pages) = pagesResult pages.
Proof.
  induction pages as [|e|subscribers more IH]; simpl; auto.
Qed.

(** C2.  For the page loop of one event, under every schedule:
    the loop ends as the registry's answer ends, whatever happens in
    the subscribers' tasks; when a page has been awaited all of its
    tasks have completed; a subscriber whose [execute] resolves to
    something that is not an async iterable makes no further call (no
    pull, no send, nothing logged); a subscriber whose task fails (in
    [execute], in the pull, in [formatMessage] or in
    [sendToConnection]) has that failure logged and nothing after it;
    and for any choice of subscribers set aside (a failing one, say),
    what remains of the run once their calls are taken out is a run of
    the loop over the pages without them, the very calls some schedule
    produces there, with the same result: the others are executed,
    pulled from and sent to page by page as if those set aside were
    not registered. *)
Theorem subscriber_failure_is_isolated
  (ev : Event_) (pages : PageStream) (sched : Sched)
  (keep : Subscriber_ -> bool) :
  result (forAwaitPages_ ev pages sched) = pagesResult pages
  /\ PagesSpec_ ev (filterPages keep pages)
       (filter (callKept keep) (calls (forAwaitPages_ ev pages sched)))
  /\ (exists sched',
        calls (forAwaitPages_ ev (filterPages keep pages) sched')
        = filter (callKept keep) (calls (forAwaitPages_ ev pages sched))
        /\ result (forAwaitPages_ ev (filterPages keep pages) sched')
           = result (forAwaitPages_ ev pages sched))
  /\ (forall subscribers sched',
        Forall (fun t => state t = Completed)
          (snd (fst (settle_ (3 * length (map (startTask_ ev) subscribers))
                       (map (startTask_ ev) subscribers) sched'))))
  /\ forall s : Subscriber_,
      match execute (executeOptions_ ev s) with
      | Fulfilled (NotIterable _) => taskBody_ ev s = []
      | Rejected e => taskBody_ ev s = [CallLog s e]
      | Fulfilled (AsyncIterable _) =>
          match snd (runSubscriber_ ev s) with
          | Rejected e =>
              taskBody_ ev s = fst (runSubscriber_ ev s) ++ [CallLog s e]
          | Fulfilled _ => filter isLog (taskBody_ ev s) = []
          end
      end.
Proof.
  destruct (forAwaitPages_spec ev pages sched) as [Hs Hr].
  pose proof (PagesSpec_filter keep ev pages _ Hs) as Hf.
  split; [exact Hr|].
  split; [exact Hf|].
  split.
  { destruct (forAwaitPages_complete ev (filterPages keep pages) _ Hf)
      as [picks Hp].
    exists (picks ++ []). rewrite Hp. simpl.
    split; [reflexivity|].
    rewrite Hr. apply pagesResult_filterPages. }
  split; [intros; apply page_tasks_all_completed|].
  intros s. unfold taskBody, runSubscriber.
  destruct (execute _) as [[it|r]|e]; simpl; try reflexivity.
  destruct (it 0) as [r|e]; simpl; try reflexivity.
  destruct (value r) as [v|]; simpl; try reflexivity.
  destruct (formatMessage _) as [m|e]; simpl; try reflexivity.
  destruct (sendToConnection _ _ _) as [u|e]; simpl; reflexivity.
Qed.

(** ** One pull, one message *)

Lemma Permutation_filter {A : Type} (f : A -> bool) (l l' : list A) :
  Permutation l l' -> Permutation (filter f l) (filter f l').
Proof.
  induction 1 as [|x l l' _ IH|x y l|l l' l'' _ IH1 _ IH2]; simpl.
  - constructor.
  - destruct (f x); [constructor|]; exact IH.
  - destruct (f x), (f y); try apply Permutation_refl. constructor.
  - eapply Permutation_trans; eassumption.
Qed.

Lemma taskBody_one_pull_one_send (ev : Event_) (s : Subscriber_) :
  length (filter isNext (taskBody_ ev s)) <= 1
  /\ length (filter isSend (taskBody_ ev s)) <= 1.
Proof.
  unfold taskBody, runSubscriber.
  destruct (execute _) as [[it|r]|e]; simpl; try lia.
  destruct (it 0) as [r|e]; simpl; try lia.
  destruct (value r) as [v|]; simpl; try lia.
  destruct (formatMessage _) as [m|e]; simpl; try lia.
  destruct (sendToConnection _ _ _) as [u|e]; simpl; lia.
Qed.

Lemma filter_callExecute_none (f : Call_ -> bool) (ev : Event_)
  (subscribers : list Subscriber_) :
  (forall s opts, f (CallExecute s opts) = false) ->
  filter f (map (callExecute_ ev) subscribers) = [].
Proof.
  intros Hf. induction subscribers as [|s l IH]; simpl.
  - reflexivity.
  - unfold callExecute at 1. rewrite Hf. exact IH.
Qed.

Lemma taskBodies_count (f : Call_ -> bool) (ev : Event_)
  (subscribers : list Subscriber_) :
  (forall s, length (filter f (taskBody_ ev s)) <= 1) ->
  length (filter f (concat (map (taskBody_ ev) subscribers)))
  <= length subscribers.
Proof.
  intros Hf. induction subscribers as [|s l IH]; simpl.
  - lia.
  - rewrite filter_app, length_app. specialize (Hf s). lia.
Qed.

Lemma pagesCallsInOrder_count (f : Call_ -> bool) (ev : Event_) :
  (forall name, f (CallNextPage name) = false) ->
  (forall s opts, f (CallExecute s opts) = false) ->
  (forall s, length (filter f (taskBody_ ev s)) <= 1) ->
  forall pages,
    length (filter f (pagesCallsInOrder_ ev pages))
    <= length (pageSubscribers pages).
Proof.
  intros Hn He Ht pages.
  induction pages as [|e|subscribers more IH]; simpl; rewrite ?Hn; simpl.
  - lia.
  - lia.
  - rewrite !filter_app, !length_app.
    rewrite (filter_callExecute_none f ev subscribers He). simpl.
    pose proof (taskBodies_count f ev subscribers Ht). lia.
Qed.

Lemma pageSubscribers_filterPages (keep : Subscriber_ -> bool)
  (pages : PageStream) :
  pageSubscribers (filterPages keep pages) = filter keep (pageSubscribers pages).
Proof.
  induction pages as [|e|subscribers more IH]; simpl; try reflexivity.
  rewrite filter_app, IH. reflexivity.
Qed.

Lemma pages_count (f : Call_ -> bool) (ev : Event_) (pages : PageStream)
  (sched : Sched) (sel : Subscriber_ -> bool) :
  (forall name, f (CallNextPage name) = false) ->
  (forall s opts, f (CallExecute s opts) = false) ->
  (forall s, length (filter f (taskBody_ ev s)) <= 1) ->
  length (filter f (filter (callKept sel) (calls (forAwaitPages_ ev pages sched))))
  <= length (filter sel (pageSubscribers pages)).
Proof.
  intros Hn He Ht.
  destruct (forAwaitPages_spec ev pages sched) as [Hs _].
  apply (PagesSpec_filter sel) in Hs.
  apply PagesSpec_Permutation in Hs.
  apply (Permutation_filter f) in Hs.
  rewrite (Permutation_length Hs), <- pageSubscribers_filterPages.
  apply pagesCallsInOrder_count; assumption.
Qed.

(** C5.  For one subscriber and one event the task pulls from the
    iterator exactly once when [execute] resolved to an async iterable
    and never otherwise, and calls [sendToConnection] at most once.
    Over the whole page loop of an event and under every schedule,
    the pulls and the sends made for any group of subscribers are at
    most as many as these subscribers are listed in the pages: a
    subscriber listed once is pulled for at most once and is sent at
    most one message. *)
Theorem at_most_one_pull_and_one_message
  (ev : Event_) (s : Subscriber_) (pages : PageStream) (sched : Sched)
  (sel : Subscriber_ -> bool) :
  match execute (executeOptions_ ev s) with
  | Fulfilled (AsyncIterable _) => filter isNext (taskBody_ ev s) = [CallNext s]
  | _ => filter isNext (taskBody_ ev s) = []
  end
  /\ length (filter isSend (taskBody_ ev s)) <= 1
  /\ length (filter isNext
               (filter (callKept sel) (calls (forAwaitPages_ ev pages sched))))
     <= length (filter sel (pageSubscribers pages))
  /\ length (filter isSend
               (filter (callKept sel) (calls (forAwaitPages_ ev pages sched))))
     <= length (filter sel (pageSubscribers pages)).
Proof.
  split; [|split; [apply taskBody_one_pull_one_send|split]].
  - unfold taskBody, runSubscriber.
    destruct (execute _) as [[it|r]|e]; simpl; try reflexivity.
    destruct (it 0) as [r|e]; simpl; try reflexivity.
    destruct (value r) as [v|]; simpl; try reflexivity.
    destruct (formatMessage _) as [m|e]; simpl; try reflexivity.
    destruct (sendToConnection _ _ _) as [u|e]; simpl; reflexivity.
  - apply pages_count; try reflexivity.
    intros s'. apply taskBody_one_pull_one_send.
  - apply pages_count; try reflexivity.
    intros s'. apply taskBody_one_pull_one_send.
Qed.

(** ** The message sent *)

(** C6.  Under every schedule, every [sendToConnection] call of a run
    is made for a subscriber [s] of an inserted, decoded record of the
    batch, and its message is [formatMessage] applied to: [id], the
    subscriber's [operationId]; [payload], the value of the first pull
    from the iterable [execute] resolved to for [s]; [type], the
    [GQL_DATA] tag of [getProtocol(flag)], where [flag] is the
    connection's [useLegacyProtocol] and [false] when that is absent. *)
Theorem sent_message_is_built_from_first_value
  (Records : list (@DynamoDBRecord AttributeMap)) (sched : Sched) :
  Forall
    (fun c : Call_ =>
       match c with
       | CallSend s message =>
           exists record ev iterator r v,
             In record Records /\ isInsert record = true
             /\ decode_ record = Normal ev
             /\ execute (executeOptions_ ev s) = Fulfilled (AsyncIterable iterator)
             /\ iterator 0 = Fulfilled r
             /\ value r = Some v
             /\ formatMessage
                  {| msg_id := operationId s;
                     msg_payload := v;
                     msg_type :=
                       GQL_DATA
                         (SERVER_EVENT_TYPES
                            (getProtocol
                               match useLegacyProtocol (data (connection s)) with
                               | Some flag => flag
                               | None => false
                               end)) |}
                = Normal message
       | _ => True
       end)
    (calls (handler_ Records sched)).
Proof.
  apply handler_calls_Forall; try (intros; exact I).
  intros record ev s Hin Hi Hd. split; [exact I|].
  unfold taskBody, runSubscriber.
  destruct (execute _) as [[it|r]|e] eqn:He; simpl; repeat constructor.
  destruct (it 0) as [r|e] eqn:Hn; simpl; repeat constructor.
  destruct (value r) as [v|] eqn:Hv; simpl; repeat constructor.
  destruct (formatMessage _) as [m|e] eqn:Hf; simpl; [|repeat constructor].
  assert (G : exists record ev iterator r v,
             In record Records /\ isInsert record = true
             /\ decode_ record = Normal ev
             /\ execute (executeOptions_ ev s) = Fulfilled (AsyncIterable iterator)
             /\ iterator 0 = Fulfilled r
             /\ value r = Some v
             /\ formatMessage (outbound getProtocol s v) = Normal m).
  { exists record, ev, it, r, v. repeat split; assumption. }
  constructor; [exact I|]. constructor; [exact G|].
  destruct (sendToConnection _ _ _) as [u|e]; simpl; repeat constructor.
Qed.

(** ** Running the batch again *)

Lemma PageSpec_sends (ev : Event_) (subscribers : list Subscriber_)
  (tr : list Call_) :
  PageSpec_ ev subscribers tr ->
  Permutation (filter isSend tr) (pageSends_ (ev, subscribers)).
Proof.
  intros (body & -> & Hm). unfold pageSends. simpl.
  rewrite filter_app, (filter_callExecute_none isSend ev subscribers);
    [|reflexivity].
  simpl. apply Permutation_filter, Permutation_sym, Merge_Permutation.
  exact Hm.
Qed.

Lemma PagesSpec_send_blocks (ev : Event_) (pages : PageStream) :
  forall tr : list Call_,
    PagesSpec_ ev pages tr ->
    exists blocks,
      filter isSend tr = concat blocks
      /\ Forall2 (fun block page => Permutation block (pageSends_ page))
           blocks (pagesOf ev pages).
Proof.
  induction pages as [|e|subscribers more IH]; simpl; intros tr H.
  - subst. exists []. split; [reflexivity | constructor].
  - subst. exists []. split; [reflexivity | constructor].
  - destruct H as (trPage & trMore & -> & Hp & Hm).
    destruct (IH trMore Hm) as (blocks & Hc & Hf).
    exists (filter isSend trPage :: blocks). split.
    + simpl. rewrite filter_app, Hc. reflexivity.
    + constructor; [apply PageSpec_sends; exact Hp | exact Hf].
Qed.

Lemma BatchSpec_send_blocks (Records : list (@DynamoDBRecord AttributeMap)) :
  forall tr : list Call_,
    BatchSpec_ Records tr ->
    exists blocks,
      filter isSend tr = concat blocks
      /\ Forall2 (fun block page => Permutation block (pageSends_ page))
           blocks (batchPages_ Records).
Proof.
  induction Records as [|record more IH]; simpl; intros tr H.
  - subst. exists []. split; [reflexivity | constructor].
  - destruct (isInsert record); [|apply IH; exact H].
    destruct (decode_ record) as [ev|e].
    + destruct H as (trEvent & trMore & -> & Hp & Hm).
      destruct (PagesSpec_send_blocks ev _ trEvent Hp) as (blocks1 & Hc1 & Hf1).
      simpl. rewrite filter_app, Hc1.
      destruct (pagesResult (registry_ ev)).
      * destruct (IH trMore Hm) as (blocks2 & Hc2 & Hf2).
        exists (blocks1 ++ blocks2). split.
        -- rewrite Hc2, concat_app. reflexivity.
        -- apply Forall2_app; assumption.
      * subst. exists blocks1. rewrite !app_nil_r. split; [reflexivity | exact Hf1].
    + subst. exists []. split; [reflexivity | constructor].
Qed.

Lemma Permutation_short {A : Type} (l l' : list A) :
  Permutation l l' -> length l' <= 1 -> l = l'.
Proof.
  intros Hp Hl. destruct l' as [|x [|y l']]; simpl in Hl; try lia.
  - apply Permutation_nil, Permutation_sym. exact Hp.
  - apply Permutation_length_1_inv, Permutation_sym. exact Hp.
Qed.

Lemma short_blocks_are_fixed {A B : Type} (f : B -> list A)
  (blocks : list (list A)) (pages : list B) :
  Forall2 (fun block page => Permutation block (f page)) blocks pages ->
  Forall (fun page => length (f page) <= 1) pages ->
  blocks = map f pages.
Proof.
  induction 1 as [|b p blocks pages Hb _ IH]; intros Hs; simpl.
  - reflexivity.
  - inversion Hs; subst. f_equal.
    + apply Permutation_short; assumption.
    + apply IH. assumption.
Qed.

Lemma blocks_of_same_pages {A B : Type} (f : B -> list A)
  (blocks1 blocks2 : list (list A)) (pages : list B) :
  Forall2 (fun block page => Permutation block (f page)) blocks1 pages ->
  Forall2 (fun block page => Permutation block (f page)) blocks2 pages ->
  Forall2 (@Permutation A) blocks1 blocks2.
Proof.
  intros H1. revert blocks2.
  induction H1 as [|b p blocks1 pages Hb _ IH]; intros blocks2 H2.
  - inversion H2. constructor.
  - inversion H2; subst. constructor.
    + eapply Permutation_trans; [exact Hb | apply Permutation_sym; assumption].
    + apply IH. assumption.
Qed.

(** C9, as the code has it.  Two runs of the same batch against the
    same answers of the registry, the engine and the connection
    manager, whatever the order in which the tasks of a page are
    resumed in either of them.  Both settle the handler's promise in
    the same way.  The [sendToConnection] calls of each run fall into
    one block for every page the batch leads to, the blocks in the
    order of the records and of their pages, and the block of a page
    holds that page's sends, each once, none left out and none added:
    nothing is remembered from the first run and no delivery is
    suppressed in the second.  Only the order of the sends inside one
    page's block can differ between the runs; when no page leads to
    more than one send, the two runs make exactly the same sequence of
    sends. *)
Theorem reprocessing_repeats_the_deliveries
  (Records : list (@DynamoDBRecord AttributeMap)) (sched1 sched2 : Sched) :
  result (handler_ Records sched2) = result (handler_ Records sched1)
  /\ (exists blocks1 blocks2,
         filter isSend (calls (handler_ Records sched1)) = concat blocks1
         /\ filter isSend (calls (handler_ Records sched2)) = concat blocks2
         /\ Forall2 (fun block page => Permutation block (pageSends_ page))
              blocks1 (batchPages_ Records)
         /\ Forall2 (fun block page => Permutation block (pageSends_ page))
              blocks2 (batchPages_ Records)
         /\ Forall2 (@Permutation Call_) blocks1 blocks2)
  /\ Permutation (filter isSend (calls (handler_ Records sched1)))
       (filter isSend (calls (handler_ Records sched2)))
  /\ (Forall (fun page => length (pageSends_ page) <= 1) (batchPages_ Records) ->
      filter isSend (calls (handler_ Records sched2))
      = filter isSend (calls (handler_ Records sched1))).
Proof.
  destruct (handler_spec Records sched1) as [Hs1 Hr1].
  destruct (handler_spec Records sched2) as [Hs2 Hr2].
  destruct (BatchSpec_send_blocks Records _ Hs1) as (blocks1 & Hc1 & Hf1).
  destruct (BatchSpec_send_blocks Records _ Hs2) as (blocks2 & Hc2 & Hf2).
  split; [rewrite Hr1, Hr2; reflexivity|].
  split.
  { exists blocks1, blocks2. repeat (split; [assumption|]).
    eapply blocks_of_same_pages; eassumption. }
  split.
  { apply Permutation_filter. eapply Permutation_trans.
    - apply BatchSpec_Permutation. exact Hs1.
    - apply Permutation_sym, BatchSpec_Permutation. exact Hs2. }
  intros Hshort.
  rewrite Hc1, Hc2.
  rewrite (short_blocks_are_fixed _ _ _ Hf1 Hshort).
  rewrite (short_blocks_are_fixed _ _ _ Hf2 Hshort).
  reflexivity.
Qed.

(** ** Decoding *)

Lemma handler_app (before more : list (@DynamoDBRecord AttributeMap)) :
  forall sched,
    batchResult_ before = Fulfilled tt ->
    calls (handler_ (before ++ more) sched)
    = calls (handler_ before sched)
        ++ calls (handler_ more (rest (handler_ before sched)))
    /\ result (handler_ (before ++ more) sched)
       = result (handler_ more (rest (handler_ before sched))).
Proof.
  unfold processDynamoDBStreamEvents.
  induction before as [|record before IH]; simpl; intros sched Hb.
  - split; reflexivity.
  - destruct (isInsert record); simpl; [|apply IH; exact Hb].
    destruct (decode_ record) as [ev|e]; [|discriminate].
    unfold bind. rewrite dispatch_run. simpl.
    destruct (forAwaitPages_spec ev (registry_ ev) sched) as [_ Hr].
    rewrite Hr.
    destruct (pagesResult (registry_ ev)) as [u|e]; [|discriminate].
    simpl.
    destruct (IH (rest (forAwaitPages_ ev (registry_ ev) sched)) Hb) as [IHc IHr].
    rewrite IHc, IHr. split; [|reflexivity].
    rewrite <- app_assoc. reflexivity.
Qed.

(** C3.  The code on an inserted record that has no [dynamodb]
    field, whatever the collaborators are and whatever records
    follow: reading [NewImage] throws a [TypeError] that nothing
    catches, so the handler's promise is rejected; no call is made,
    and the run is the same whatever follows the record, so that no
    later record is processed.  The record is not skipped. *)
Theorem insert_without_dynamodb_rejects_the_batch
  (more : list (@DynamoDBRecord AttributeMap)) (sched : Sched) :
  (exists msg,
      result (handler_ ({| eventName := Some "INSERT"; dynamodb := None |} :: more)
                sched)
      = Rejected (TypeError msg))
  /\ calls (handler_ ({| eventName := Some "INSERT"; dynamodb := None |} :: more)
              sched)
     = []
  /\ rest (handler_ ({| eventName := Some "INSERT"; dynamodb := None |} :: more)
             sched)
     = sched
  /\ handler_ ({| eventName := Some "INSERT"; dynamodb := None |} :: more) sched
     = handler_ [{| eventName := Some "INSERT"; dynamodb := None |}] sched.
Proof.
  unfold processDynamoDBStreamEvents. simpl.
  split; [eexists; reflexivity|]. repeat split.
Qed.

(** ** A payload that is not JSON *)

Lemma pagesCallsInOrder_filter (f : Call_ -> bool) (ev : Event_)
  (g : Subscriber_ -> list Call_) :
  (forall name, f (CallNextPage name) = false) ->
  (forall s opts, f (CallExecute s opts) = false) ->
  forall pages,
    (forall s, In s (pageSubscribers pages) ->
               filter f (taskBody_ ev s) = g s) ->
    filter f (pagesCallsInOrder_ ev pages) = flat_map g (pageSubscribers pages).
Proof.
  intros Hn He pages.
  induction pages as [|e|subscribers more IH]; simpl; intros Hg;
    rewrite ?Hn; try reflexivity.
  rewrite !filter_app, (filter_callExecute_none f ev subscribers He).
  rewrite flat_map_app. simpl. f_equal.
  - clear IH. induction subscribers as [|s l IHl]; simpl.
    + reflexivity.
    + rewrite filter_app. f_equal.
      * apply Hg. left. reflexivity.
      * apply IHl. intros s' Hs'. apply Hg. simpl. right. exact Hs'.
  - apply IH. intros s Hs. apply Hg. apply in_or_app. right. exact Hs.
Qed.

Lemma asyncIterator_single_unparsable
  (JSON_parse : string -> Completion (@Payload Structured))
  (ev : Event_) (text : string) (e : Exn) (eventNames : EventNames) :
  payload ev = PayloadString text ->
  JSON_parse text = Throw e ->
  asyncIterator JSON_parse {| events := [ev] |} eventNames
  = if includes (namesOf eventNames) (event ev)
    then Throw e
    else Normal (createAsyncIterator []).
Proof.
  intros Hp He. unfold asyncIterator, matchingPayloads. simpl.
  destruct (includes (namesOf eventNames) (event ev)); simpl.
  - unfold parsePayload. rewrite Hp, He. reflexivity.
  - reflexivity.
Qed.

Lemma flat_map_if_singleton {A B : Type} (p : A -> bool) (f : A -> B)
  (l : list A) :
  flat_map (fun a => if p a then [f a] else []) l = map f (filter p l).
Proof.
  induction l as [|a l IH]; simpl.
  - reflexivity.
  - destruct (p a); simpl; rewrite IH; reflexivity.
Qed.

(** C10, as the code has it.  Let the event's payload be a string
    that [JSON.parse] rejects with [e].  Asking the event source for an
    iterator throws [e] when the requested names include the event's
    name, and returns an empty iterator when they do not; nothing else
    in the pipeline parses the payload.  For subscribers whose
    [execute] asks for such an iterator and, when that throws, either
    rejects with the error or resolves to a result that is not
    iterable: a task whose [execute] rejected logs [e] and does
    nothing else, the other tasks do nothing at all; no pull and no
    [sendToConnection] call is made; the logged subscribers are those
    whose [execute] rejected, once for each time they are listed; and
    the page loop still ends as the registry's answer ends. *)
Theorem unparsable_payload_fails_in_the_subscriber_task
  (JSON_parse : string -> Completion (@Payload Structured))
  (ev : Event_) (text : string) (e : Exn) (pages : PageStream)
  (sched : Sched) :
  payload ev = PayloadString text ->
  JSON_parse text = Throw e ->
  (forall s, In s (pageSubscribers pages) ->
     exists eventNames,
       includes (namesOf eventNames) (event ev) = true
       /\ forall e',
           asyncIterator JSON_parse (x_pubSub (executeOptions_ ev s)) eventNames
           = Throw e' ->
           execute (executeOptions_ ev s) = Rejected e'
           \/ exists r, execute (executeOptions_ ev s) = Fulfilled (NotIterable r)) ->
  (forall eventNames,
      asyncIterator JSON_parse {| events := [ev] |} eventNames
      = if includes (namesOf eventNames) (event ev)
        then Throw e
        else Normal (createAsyncIterator []))
  /\ (forall s, In s (pageSubscribers pages) ->
        taskBody_ ev s
        = if executeRejects execute (executeOptions_ ev s)
          then [CallLog s e]
          else [])
  /\ filter isNext (calls (forAwaitPages_ ev pages sched)) = []
  /\ filter isSend (calls (forAwaitPages_ ev pages sched)) = []
  /\ Permutation (filter isLog (calls (forAwaitPages_ ev pages sched)))
       (map (fun s => CallLog s e)
          (filter (fun s => executeRejects execute (executeOptions_ ev s))
             (pageSubscribers pages)))
  /\ result (forAwaitPages_ ev pages sched) = pagesResult pages.
Proof.
  intros Hp He Hx.
  assert (Hit : forall eventNames,
             asyncIterator JSON_parse {| events := [ev] |} eventNames
             = if includes (namesOf eventNames) (event ev)
               then Throw e
               else Normal (createAsyncIterator [])).
  { intros eventNames.
    apply (asyncIterator_single_unparsable JSON_parse ev text e); assumption. }
  assert (Hbody : forall s, In s (pageSubscribers pages) ->
                            taskBody_ ev s
                            = if executeRejects execute (executeOptions_ ev s)
                              then [CallLog s e]
                              else []).
  { intros s Hs. destruct (Hx s Hs) as (eventNames & Hinc & Hrej).
    unfold taskBody, runSubscriber, executeRejects.
    destruct (Hrej e) as [Hr|[r Hr]].
    - simpl. rewrite Hit, Hinc. reflexivity.
    - rewrite Hr. reflexivity.
    - rewrite Hr. reflexivity. }
  destruct (forAwaitPages_spec ev pages sched) as [Hs Hr].
  apply PagesSpec_Permutation in Hs.
  assert (Hnone : forall f : Call_ -> bool,
             (forall name, f (CallNextPage name) = false) ->
             (forall s opts, f (CallExecute s opts) = false) ->
             (forall s e', f (CallLog s e') = false) ->
             filter f (calls (forAwaitPages_ ev pages sched)) = []).
  { intros f Hn Hex Hl.
    apply Permutation_nil, Permutation_sym.
    pose proof (Permutation_filter f _ _ Hs) as Hf.
    rewrite (pagesCallsInOrder_filter f ev (fun _ => []) Hn Hex) in Hf.
    - assert (Hz : forall l : list Subscriber_,
                 flat_map (fun _ => @nil Call_) l = []).
      { intros l. induction l; simpl; auto. }
      rewrite Hz in Hf. exact Hf.
    - intros s Hin. rewrite (Hbody s Hin).
      destruct (executeRejects _ _); simpl; rewrite ?Hl; reflexivity. }
  split; [exact Hit|]. split; [exact Hbody|].
  split; [apply Hnone; reflexivity|].
  split; [apply Hnone; reflexivity|].
  split; [|exact Hr].
  apply (Permutation_filter isLog) in Hs.
  rewrite (pagesCallsInOrder_filter isLog ev
             (fun s => if executeRejects execute (executeOptions_ ev s)
                       then [CallLog s e] else [])) in Hs;
    try reflexivity.
  - rewrite flat_map_if_singleton in Hs. exact Hs.
  - intros s Hin. rewrite (Hbody s Hin).
    destruct (executeRejects _ _); reflexivity.
Qed.

(** ** More on the runs *)

Lemma taskBody_listed (ev : Event_) (s : Subscriber_) (pages : PageStream) :
  In s (pageSubscribers pages) ->
  incl (callExecute_ ev s :: taskBody_ ev s) (pagesCallsInOrder_ ev pages).
Proof.
  induction pages as [|e|subscribers more IH]; simpl; intros Hin.
  - contradiction.
  - contradiction.
  - apply in_app_or in Hin. intros c Hc. right.
    destruct Hin as [Hin|Hin].
    + apply in_or_app. left. apply in_or_app.
      destruct Hc as [<-|Hc].
      * left. apply in_map. exact Hin.
      * right. apply in_concat. exists (taskBody_ ev s).
        split; [apply in_map; exact Hin | exact Hc].
    + apply in_or_app. right. apply IH; assumption.
Qed.

Lemma pagesCallsInOrder_Forall_listed (P : Call_ -> Prop) (ev : Event_)
  (pages : PageStream) :
  P (CallNextPage (event ev)) ->
  (forall s, In s (pageSubscribers pages) ->
             P (callExecute_ ev s) /\ Forall P (taskBody_ ev s)) ->
  Forall P (pagesCallsInOrder_ ev pages).
Proof.
  intros Hn.
  induction pages as [|e|subscribers more IH]; simpl; intros Ht.
  - constructor; [exact Hn | constructor].
  - constructor; [exact Hn | constructor].
  - constructor; [exact Hn|].
    apply Forall_app. split.
    + apply Forall_app. split.
      * apply Forall_forall. intros c Hc.
        apply in_map_iff in Hc. destruct Hc as (s & <- & Hs).
        apply Ht. apply in_or_app. left. exact Hs.
      * apply Forall_forall. intros c Hc.
        apply in_concat in Hc. destruct Hc as (l & Hl & Hc).
        apply in_map_iff in Hl. destruct Hl as (s & <- & Hs).
        destruct (Ht s) as [_ Hb]; [apply in_or_app; left; exact Hs|].
        rewrite Forall_forall in Hb. apply Hb. exact Hc.
    + apply IH. intros s Hs. apply Ht. apply in_or_app. right. exact Hs.
Qed.

Lemma handler_calls_Forall_listed (P : Call_ -> Prop)
  (Records : list (@DynamoDBRecord AttributeMap)) (sched : Sched) :
  (forall name, P (CallSubscribersByEventName name)) ->
  (forall name, P (CallNextPage name)) ->
  (forall record ev s,
      In record Records -> isInsert record = true ->
      decode_ record = Normal ev ->
      In s (pageSubscribers (registry_ ev)) ->
      P (callExecute_ ev s) /\ Forall P (taskBody_ ev s)) ->
  Forall P (calls (handler_ Records sched)).
Proof.
  intros Hs Hn Ht.
  destruct (handler_spec Records sched) as [Hspec _].
  apply BatchSpec_Permutation in Hspec.
  apply Forall_forall. intros c Hc.
  apply (Permutation_in _ Hspec) in Hc. revert c Hc. apply Forall_forall.
  clear Hspec sched.
  induction Records as [|record more IH]; simpl.
  - constructor.
  - assert (IH' : Forall P (batchCallsInOrder_ more)).
    { apply IH. intros r ev s Hin. apply Ht. right. exact Hin. }
    destruct (isInsert record) eqn:Hi; [|exact IH'].
    destruct (decode_ record) as [ev|e] eqn:Hd; [|constructor].
    constructor; [apply Hs|].
    apply Forall_app. split.
    + apply pagesCallsInOrder_Forall_listed; [apply Hn|].
      intros s Hin.
      apply (Ht record ev s); [left; reflexivity | exact Hi | exact Hd | exact Hin].
    + destruct (pagesResult (registry_ ev)); [exact IH' | constructor].
Qed.

(** X5.  Under every schedule, every [execute] call of a run is made
    for a subscriber the registry listed for the event of an inserted,
    decoded record of the batch, and with these options: subscriptions
    in use but not to be registered, an event source holding that one
    event and nothing else, the subscriber's own connection and
    operation, and the processor's managers, schema and context with
    the host's lambda context. *)
Theorem execute_is_called_to_deliver_one_event
  (Records : list (@DynamoDBRecord AttributeMap)) (sched : Sched) :
  Forall
    (fun c : Call_ =>
       match c with
       | CallExecute s opts =>
           exists record ev,
             In record Records /\ isInsert record = true
             /\ decode_ record = Normal ev
             /\ In s (pageSubscribers (registry_ ev))
             /\ x_registerSubscriptions opts = false
             /\ x_useSubscriptions opts = true
             /\ x_pubSub opts = {| events := [ev] |}
             /\ x_connection opts = connection s
             /\ x_operation opts = operation s
             /\ x_connectionManager opts = connectionManager options
             /\ x_subscriptionManager opts = subscriptionManager options
             /\ x_schema opts = schema options
             /\ x_context opts = context options
             /\ x_lambdaContext opts = lambdaContext
       | _ => True
       end)
    (calls (handler_ Records sched)).
Proof.
  apply handler_calls_Forall_listed; try (intros; exact I).
  intros record ev s Hin Hi Hd Hs. split.
  - exists record, ev. repeat split; assumption.
  - unfold taskBody, runSubscriber.
    destruct (execute _) as [[it|r]|e]; simpl; repeat constructor.
    destruct (it 0) as [r|e]; simpl; repeat constructor.
    destruct (value r) as [v|]; simpl; repeat constructor.
    destruct (formatMessage _) as [m|e]; simpl; repeat constructor.
    destruct (sendToConnection _ _ _) as [u|e]; simpl; repeat constructor.
Qed.

(** X9.  Under every schedule, whatever a run logs is a failure of the
    logged subscriber's own task for an event of the batch: the error
    [execute] rejected with, or the one the first pull rejected with,
    or the one [formatMessage] threw on the pulled value, or the one
    [sendToConnection] rejected with.  Nothing else is ever logged. *)
Theorem logged_errors_are_task_failures
  (Records : list (@DynamoDBRecord AttributeMap)) (sched : Sched) :
  Forall
    (fun c : Call_ =>
       match c with
       | CallLog s e =>
           exists record ev,
             In record Records /\ isInsert record = true
             /\ decode_ record = Normal ev
             /\ In s (pageSubscribers (registry_ ev))
             /\ (execute (executeOptions_ ev s) = Rejected e
                 \/ exists iterator,
                     execute (executeOptions_ ev s)
                     = Fulfilled (AsyncIterable iterator)
                     /\ (iterator 0 = Rejected e
                         \/ exists r v,
                             iterator 0 = Fulfilled r /\ value r = Some v
                             /\ (formatMessage (outbound getProtocol s v) = Throw e
                                 \/ exists message,
                                     formatMessage (outbound getProtocol s v)
                                     = Normal message
                                     /\ sendToConnection (connectionManager options)
                                          (connection s) message
                                        = Rejected e)))
       | _ => True
       end)
    (calls (handler_ Records sched)).
Proof.
  apply handler_calls_Forall_listed; try (intros; exact I).
  intros record ev s Hin Hi Hd Hs. split; [exact I|].
  unfold taskBody, runSubscriber.
  destruct (execute _) as [[it|r]|e] eqn:He; simpl.
  - destruct (it 0) as [r|e] eqn:Hn; simpl.
    + destruct (value r) as [v|] eqn:Hv; simpl;
        [|constructor; [exact I | constructor]].
      destruct (formatMessage _) as [m|e] eqn:Hf; simpl.
      * constructor; [exact I|]. constructor; [exact I|].
        destruct (sendToConnection _ _ _) as [u|e] eqn:Hsend; simpl;
          [constructor|].
        constructor; [|constructor].
        exists record, ev. repeat (split; [assumption|]).
        right. exists it. split; [exact He|].
        right. exists r, v. split; [exact Hn|]. split; [exact Hv|].
        right. exists m. split; assumption.
      * constructor; [exact I|]. constructor; [|constructor].
        exists record, ev. repeat (split; [assumption|]).
        right. exists it. split; [exact He|].
        right. exists r, v. split; [exact Hn|]. split; [exact Hv|].
        left. exact Hf.
    + constructor; [exact I|]. constructor; [|constructor].
      exists record, ev. repeat (split; [assumption|]).
      right. exists it. split; [exact He|]. left. exact Hn.
  - constructor.
  - constructor; [|constructor].
    exists record, ev. repeat (split; [assumption|]).
    left. exact He.
Qed.

Lemma taskBody_no_loop_call (ev : Event_) (s : Subscriber_) :
  Forall (fun c : Call_ => isLoopCall c = false) (taskBody_ ev s).
Proof.
  unfold taskBody, runSubscriber.
  destruct (execute _) as [[it|r]|e]; simpl; repeat constructor.
  destruct (it 0) as [r|e]; simpl; repeat constructor.
  destruct (value r) as [v|]; simpl; repeat constructor.
  destruct (formatMessage _) as [m|e]; simpl; repeat constructor.
  destruct (sendToConnection _ _ _) as [u|e]; simpl; repeat constructor.
Qed.

Lemma filter_none {A : Type} (f : A -> bool) (l : list A) :
  Forall (fun x => f x = false) l -> filter f l = [].
Proof.
  induction 1 as [|x l Hx _ IH]; simpl.
  - reflexivity.
  - rewrite Hx. exact IH.
Qed.

Lemma filter_taskBodies_none (f : Call_ -> bool) (ev : Event_)
  (subscribers : list Subscriber_) :
  (forall c, isLoopCall c = false -> f c = false) ->
  filter f (concat (map (taskBody_ ev) subscribers)) = [].
Proof.
  intros Hf. induction subscribers as [|s l IH]; simpl.
  - reflexivity.
  - rewrite filter_app, IH, app_nil_r.
    apply filter_none.
    eapply Forall_impl; [|apply taskBody_no_loop_call].
    intros c Hc. apply Hf. exact Hc.
Qed.

Lemma PageSpec_loop_calls (f : Call_ -> bool) (ev : Event_)
  (subscribers : list Subscriber_) (tr : list Call_) :
  (forall c, isLoopCall c = false -> f c = false) ->
  PageSpec_ ev subscribers tr ->
  filter f tr = filter f (map (callExecute_ ev) subscribers).
Proof.
  intros Hf (body & -> & Hm).
  rewrite filter_app.
  apply Merge_Permutation, (Permutation_filter f) in Hm.
  rewrite (filter_taskBodies_none f ev subscribers Hf) in Hm.
  apply Permutation_nil in Hm. rewrite Hm, app_nil_r. reflexivity.
Qed.

Lemma PagesSpec_loop_calls (f : Call_ -> bool) (ev : Event_)
  (pages : PageStream) :
  (forall c, isLoopCall c = false -> f c = false) ->
  forall tr : list Call_,
    PagesSpec_ ev pages tr ->
    filter f tr = filter f (pagesCallsInOrder_ ev pages).
Proof.
  intros Hf.
  induction pages as [|e|subscribers more IH]; simpl; intros tr H.
  - subst. reflexivity.
  - subst. reflexivity.
  - destruct H as (trPage & trMore & -> & Hp & Hm).
    simpl. rewrite !filter_app.
    rewrite (PageSpec_loop_calls f ev subscribers trPage Hf Hp).
    rewrite (filter_taskBodies_none f ev subscribers Hf), app_nil_r.
    rewrite (IH trMore Hm). reflexivity.
Qed.

Lemma BatchSpec_loop_calls (f : Call_ -> bool)
  (Records : list (@DynamoDBRecord AttributeMap)) :
  (forall c, isLoopCall c = false -> f c = false) ->
  forall tr : list Call_,
    BatchSpec_ Records tr ->
    filter f tr = filter f (batchCallsInOrder_ Records).
Proof.
  intros Hf.
  induction Records as [|record more IH]; simpl; intros tr H.
  - subst. reflexivity.
  - destruct (isInsert record); [|apply IH; exact H].
    destruct (decode_ record) as [ev|e]; [|subst; reflexivity].
    destruct H as (trEvent & trMore & -> & Hp & Hm).
    simpl. rewrite !filter_app.
    rewrite (PagesSpec_loop_calls f ev _ Hf trEvent Hp).
    destruct (pagesResult (registry_ ev)).
    + rewrite (IH trMore Hm). reflexivity.
    + subst. reflexivity.
Qed.

Lemma pagesCallsInOrder_executes (ev : Event_) (pages : PageStream) :
  filter isExecute (pagesCallsInOrder_ ev pages)
  = map (callExecute_ ev) (pageSubscribers pages).
Proof.
  induction pages as [|e|subscribers more IH]; simpl; try reflexivity.
  rewrite !filter_app, IH, map_app.
  rewrite (filter_taskBodies_none isExecute ev subscribers), app_nil_r.
  - f_equal. clear. induction subscribers as [|s l IHl]; simpl.
    + reflexivity.
    + rewrite IHl. reflexivity.
  - intros c. destruct c; simpl; intros; try discriminate; reflexivity.
Qed.

(** X6.  What the handler's own loops do is fixed, whatever the tasks
    do and however they interleave.  For one event, [execute] is
    called exactly once for every listing of a subscriber, in the
    order of the pages and, within a page, of the listing.  For a
    batch, the registry lookups, the page requests and the [execute]
    calls are the same calls in the same order under any two
    schedules. *)
Theorem loop_calls_do_not_depend_on_the_schedule
  (ev : Event_) (pages : PageStream)
  (Records : list (@DynamoDBRecord AttributeMap)) (sched1 sched2 : Sched) :
  filter isExecute (calls (forAwaitPages_ ev pages sched1))
  = map (callExecute_ ev) (pageSubscribers pages)
  /\ filter isLoopCall (calls (handler_ Records sched1))
     = filter isLoopCall (calls (handler_ Records sched2)).
Proof.
  split.
  - destruct (forAwaitPages_spec ev pages sched1) as [Hs _].
    assert (Hf : forall c : Call_, isLoopCall c = false -> isExecute c = false).
    { intros c. destruct c; simpl; intros; try discriminate; reflexivity. }
    rewrite (PagesSpec_loop_calls isExecute ev pages Hf _ Hs).
    apply pagesCallsInOrder_executes.
  - destruct (handler_spec Records sched1) as [H1 _].
    destruct (handler_spec Records sched2) as [H2 _].
    rewrite (BatchSpec_loop_calls isLoopCall Records (fun c H => H) _ H1).
    rewrite (BatchSpec_loop_calls isLoopCall Records (fun c H => H) _ H2).
    reflexivity.
Qed.

(** X7.  No message is lost to the others or to the schedule: for a
    subscriber the registry lists for the event, if [execute] resolves
    to an async iterable, its first pull is fulfilled with a value
    that is not null (marked [done] or not) and [formatMessage]
    returns a message, then that message is sent to that subscriber
    in every run of the page loop, whatever the other subscribers'
    tasks do; and if [sendToConnection] rejects, that is logged. *)
Theorem listed_subscriber_with_a_value_is_sent_to
  (ev : Event_) (pages : PageStream) (sched : Sched) (s : Subscriber_)
  (iterator : AsyncIterator ExecutionResult)
  (r : IteratorResult ExecutionResult) (v : ExecutionResult)
  (message : string) :
  In s (pageSubscribers pages) ->
  execute (executeOptions_ ev s) = Fulfilled (AsyncIterable iterator) ->
  iterator 0 = Fulfilled r ->
  value r = Some v ->
  formatMessage (outbound getProtocol s v) = Normal message ->
  In (CallSend s message) (calls (forAwaitPages_ ev pages sched))
  /\ match sendToConnection (connectionManager options) (connection s) message with
     | Rejected e => In (CallLog s e) (calls (forAwaitPages_ ev pages sched))
     | Fulfilled _ => True
     end.
Proof.
  intros Hin He Hn Hv Hf.
  destruct (forAwaitPages_spec ev pages sched) as [Hs _].
  apply PagesSpec_Permutation, Permutation_sym in Hs.
  pose proof (taskBody_listed ev s pages Hin) as Hincl.
  assert (Hbody : taskBody_ ev s
                  = [CallNext s; CallSend s message]
                      ++ catchLog s (sendToConnection (connectionManager options)
                                       (connection s) message)).
  { unfold taskBody, runSubscriber. rewrite He, Hn, Hv, Hf. reflexivity. }
  split.
  - apply (Permutation_in _ Hs), Hincl. right. rewrite Hbody.
    right. left. reflexivity.
  - destruct (sendToConnection _ _ _) as [u|e]; [exact I|].
    apply (Permutation_in _ Hs), Hincl. right. rewrite Hbody.
    right. right. left. reflexivity.
Qed.

Lemma Merge_single {A : Type} (ls : list (list A)) (tr : list A) :
  Merge ls tr -> forall l, ls = [l] -> tr = l.
Proof.
  induction 1 as [ls Hnil | ls1 x l0 ls2 tr _ IH]; intros l Hl.
  - subst. inversion Hnil; subst. reflexivity.
  - destruct ls1 as [|a ls1]; simpl in Hl.
    + inversion Hl; subst. f_equal. apply IH. reflexivity.
    + inversion Hl as [[Ha Hrest]]. destruct ls1; discriminate.
Qed.

Lemma Merge_none {A : Type} (ls : list (list A)) (tr : list A) :
  Merge ls tr -> ls = [] -> tr = [].
Proof.
  induction 1 as [ls Hnil | ls1 x l0 ls2 tr _ IH]; intros Hl.
  - reflexivity.
  - destruct ls1; discriminate.
Qed.

Lemma PageSpec_owned (ev : Event_) (subscribers : list Subscriber_)
  (tr : list Call_) :
  PageSpec_ ev subscribers tr ->
  Forall (fun c => exists s, ownerOf c = Some s) tr.
Proof.
  intros (body & -> & Hm).
  apply Forall_app. split.
  - apply Forall_forall. intros c Hc.
    apply in_map_iff in Hc. destruct Hc as (s & <- & _). exists s. reflexivity.
  - apply Merge_Permutation in Hm.
    apply Forall_forall. intros c Hc.
    apply (Permutation_in _ (Permutation_sym Hm)) in Hc.
    apply in_concat in Hc. destruct Hc as (l & Hl & Hc).
    apply in_map_iff in Hl. destruct Hl as (s & <- & _).
    pose proof (taskBody_owner ev s) as Ho.
    rewrite Forall_forall in Ho. exists s. apply Ho. exact Hc.
Qed.

Lemma PageSpec_owned_filter (keep : Subscriber_ -> bool) (ev : Event_)
  (subscribers : list Subscriber_) (tr : list Call_) :
  PageSpec_ ev subscribers tr ->
  PageSpec_ ev (filter keep subscribers) (filter (callOwnedBy keep) tr).
Proof.
  intros H.
  rewrite (filter_ext_in (callOwnedBy keep) (callKept keep)).
  - apply PageSpec_filter. exact H.
  - pose proof (PageSpec_owned ev subscribers tr H) as Ho.
    rewrite Forall_forall in Ho.
    intros c Hc. destruct (Ho c Hc) as [s Hs].
    unfold callOwnedBy, callKept. rewrite Hs. reflexivity.
Qed.

Lemma PagesSpec_owned_none (keep : Subscriber_ -> bool) (ev : Event_)
  (pages : PageStream) :
  forall tr : list Call_,
    PagesSpec_ ev pages tr ->
    filter keep (pageSubscribers pages) = [] ->
    filter (callOwnedBy keep) tr = [].
Proof.
  induction pages as [|e|subscribers more IH]; simpl; intros tr H Hk.
  - subst. reflexivity.
  - subst. reflexivity.
  - destruct H as (trPage & trMore & -> & Hp & Hm).
    rewrite filter_app in Hk. apply app_eq_nil in Hk. destruct Hk as [Hk1 Hk2].
    change (filter (callOwnedBy keep)
              (CallNextPage (event ev) :: trPage ++ trMore))
      with (filter (callOwnedBy keep) (trPage ++ trMore)).
    rewrite filter_app.
    rewrite (IH trMore Hm Hk2), app_nil_r.
    apply (PageSpec_owned_filter keep) in Hp. rewrite Hk1 in Hp.
    destruct Hp as (body & -> & Hb). simpl in *.
    apply (Merge_none _ _ Hb). reflexivity.
Qed.

Lemma PagesSpec_owned_one (keep : Subscriber_ -> bool) (ev : Event_)
  (s : Subscriber_) (pages : PageStream) :
  forall tr : list Call_,
    PagesSpec_ ev pages tr ->
    filter keep (pageSubscribers pages) = [s] ->
    filter (callOwnedBy keep) tr = callExecute_ ev s :: taskBody_ ev s.
Proof.
  induction pages as [|e|subscribers more IH]; simpl; intros tr H Hk.
  - discriminate.
  - discriminate.
  - destruct H as (trPage & trMore & -> & Hp & Hm).
    rewrite filter_app in Hk.
    change (filter (callOwnedBy keep)
              (CallNextPage (event ev) :: trPage ++ trMore))
      with (filter (callOwnedBy keep) (trPage ++ trMore)).
    rewrite filter_app.
    apply (PageSpec_owned_filter keep) in Hp.
    apply app_eq_unit in Hk. destruct Hk as [[Hk1 Hk2]|[Hk1 Hk2]].
    + rewrite (IH trMore Hm Hk2). rewrite Hk1 in Hp.
      destruct Hp as (body & -> & Hb). simpl in *.
      rewrite (Merge_none _ _ Hb); reflexivity.
    + rewrite (PagesSpec_owned_none keep ev more trMore Hm Hk2), app_nil_r.
      rewrite Hk1 in Hp.
      destruct Hp as (body & -> & Hb). simpl in *.
      f_equal. apply (Merge_single _ _ Hb). reflexivity.
Qed.

(** X8.  However the tasks of a page interleave, the calls made for a
    subscriber that is listed once come in the order of the program:
    [execute] first, then what the task does, which is its pull (if
    any), then its send (if any), then its logged failure (if any).
    No message is sent before the pull, nothing follows a logged
    failure. *)
Theorem calls_of_one_subscriber_are_in_program_order
  (ev : Event_) (pages : PageStream) (sched : Sched)
  (keep : Subscriber_ -> bool) (s : Subscriber_) :
  filter keep (pageSubscribers pages) = [s] ->
  filter (callOwnedBy keep) (calls (forAwaitPages_ ev pages sched))
  = callExecute_ ev s :: taskBody_ ev s
  /\ taskBody_ ev s
     = filter isNext (taskBody_ ev s)
         ++ filter isSend (taskBody_ ev s)
         ++ filter isLog (taskBody_ ev s).
Proof.
  intros Hk. split.
  - destruct (forAwaitPages_spec ev pages sched) as [Hs _].
    apply (PagesSpec_owned_one keep ev s pages _ Hs Hk).
  - unfold taskBody, runSubscriber.
    destruct (execute _) as [[it|r]|e]; simpl; try reflexivity.
    destruct (it 0) as [r|e]; simpl; try reflexivity.
    destruct (value r) as [v|]; simpl; try reflexivity.
    destruct (formatMessage _) as [m|e]; simpl; try reflexivity.
    destruct (sendToConnection _ _ _) as [u|e]; simpl; reflexivity.
Qed.

(** ** When the registry fails *)

(** X10.  The page loop is not guarded either.  When the registry's
    answer for the event of an inserted record throws, at the first
    page or after some pages, the handler's promise is rejected with
    that error; the pages yielded before the throw are dispatched in
    full, and no later record of the batch is looked at: the run is
    the same whatever records follow. *)
Theorem registry_failure_rejects_the_batch
  (before : list (@DynamoDBRecord AttributeMap))
  (record : @DynamoDBRecord AttributeMap)
  (more : list (@DynamoDBRecord AttributeMap)) (sched : Sched)
  (ev : Event_) (e : Exn) :
  batchResult_ before = Fulfilled tt ->
  isInsert record = true ->
  decode_ record = Normal ev ->
  pagesResult (registry_ ev) = Rejected e ->
  result (handler_ (before ++ record :: more) sched) = Rejected e
  /\ (exists tr,
         calls (handler_ (before ++ record :: more) sched)
         = calls (handler_ before sched)
             ++ CallSubscribersByEventName (event ev) :: tr
         /\ PagesSpec_ ev (registry_ ev) tr)
  /\ calls (handler_ (before ++ record :: more) sched)
     = calls (handler_ (before ++ [record]) sched).
Proof.
  intros Hb Hi Hd Hr.
  assert (Hone : forall l sched',
             processDynamoDBStreamEvents unmarshall execute getProtocol
               formatMessage options lambdaContext (record :: l) sched'
             = mkRun
                 (CallSubscribersByEventName (event ev)
                  :: calls (forAwaitPages_ ev (registry_ ev) sched'))
                 (rest (forAwaitPages_ ev (registry_ ev) sched'))
                 (Rejected e)).
  { intros l sched'. unfold processDynamoDBStreamEvents. simpl.
    rewrite Hi, Hd. simpl. unfold bind. rewrite dispatch_run. simpl.
    destruct (forAwaitPages_spec ev (registry_ ev) sched') as [_ Hres].
    rewrite Hres, Hr. reflexivity. }
  destruct (handler_app before (record :: more) sched Hb) as [Hc Hres].
  destruct (handler_app before [record] sched Hb) as [Hc1 _].
  rewrite Hc, Hres, Hc1, !Hone. simpl.
  split; [reflexivity|]. split; [|reflexivity].
  eexists. split; [reflexivity|]. apply forAwaitPages_spec.
Qed.

(** ** Batches put together *)

Lemma handler_app_rejected (first second : list (@DynamoDBRecord AttributeMap)) :
  forall sched e,
    batchResult_ first = Rejected e ->
    handler_ (first ++ second) sched = handler_ first sched.
Proof.
  unfold processDynamoDBStreamEvents.
  induction first as [|record first IH]; simpl; intros sched e Hb.
  - discriminate.
  - destruct (isInsert record); simpl; [|apply (IH _ e); exact Hb].
    destruct (decode_ record) as [ev|e']; [|reflexivity].
    unfold bind. rewrite dispatch_run. simpl.
    destruct (forAwaitPages_spec ev (registry_ ev) sched) as [_ Hr].
    rewrite Hr.
    destruct (pagesResult (registry_ ev)) as [u|e']; [|reflexivity].
    rewrite (IH _ e Hb). reflexivity.
Qed.

(** X11.  The run on two batches put together is the run on the first
    followed, if that one resolves, by the run on the second under the
    schedule the first has left: the calls follow each other and the
    result is the second's.  If the first is rejected the second is
    never started: the run is that of the first alone. *)
Theorem run_of_appended_batches
  (first second : list (@DynamoDBRecord AttributeMap)) (sched : Sched) :
  match result (handler_ first sched) with
  | Fulfilled _ =>
      calls (handler_ (first ++ second) sched)
      = calls (handler_ first sched)
          ++ calls (handler_ second (rest (handler_ first sched)))
      /\ result (handler_ (first ++ second) sched)
         = result (handler_ second (rest (handler_ first sched)))
      /\ rest (handler_ (first ++ second) sched)
         = rest (handler_ second (rest (handler_ first sched)))
  | Rejected _ => handler_ (first ++ second) sched = handler_ first sched
  end.
Proof.
  destruct (handler_spec first sched) as [_ Hr]. rewrite Hr.
  destruct (batchResult_ first) as [[]|e] eqn:Hb.
  - destruct (handler_app first second sched Hb) as [Hc Hres].
    split; [exact Hc|]. split; [exact Hres|].
    clear Hc Hres Hr. revert sched Hb.
    unfold processDynamoDBStreamEvents.
    induction first as [|record first IH]; simpl; intros sched Hb.
    + reflexivity.
    + destruct (isInsert record); simpl; [|apply IH; exact Hb].
      destruct (decode_ record) as [ev|e]; [|discriminate].
      unfold bind. rewrite dispatch_run. simpl.
      destruct (forAwaitPages_spec ev (registry_ ev) sched) as [_ Hr].
      rewrite Hr.
      destruct (pagesResult (registry_ ev)) as [u|e]; [|discriminate].
      simpl. apply IH. exact Hb.
  - apply (handler_app_rejected first second sched e Hb).
Qed.

(** ** What the handler reads of an answer *)

(** Tasks that stand at the same [await] for answers the handler
    cannot tell apart. *)
Lemma resume_same_first (s : Subscriber_)
  (p p' : Settled (@ExecuteResult ExecutionResult)) :
  sameFirstValue p p' ->
  fst (resume_ (mkTask s (Pending (AwaitExecute p))))
  = fst (resume_ (mkTask s (Pending (AwaitExecute p'))))
  /\ (snd (resume_ (mkTask s (Pending (AwaitExecute p))))
      = snd (resume_ (mkTask s (Pending (AwaitExecute p'))))
      \/ exists r r',
          value r = value r'
          /\ snd (resume_ (mkTask s (Pending (AwaitExecute p))))
             = mkTask s (Pending (AwaitNext (Fulfilled r)))
          /\ snd (resume_ (mkTask s (Pending (AwaitExecute p'))))
             = mkTask s (Pending (AwaitNext (Fulfilled r')))).
Proof.
  unfold sameFirstValue, resume. simpl.
  destruct p as [[it|x]|e], p' as [[it'|x']|e']; simpl; intros H;
    try contradiction; try (split; [reflexivity | left; reflexivity]).
  - split; [reflexivity|].
    destruct (it 0) as [r|e], (it' 0) as [r'|e']; try contradiction.
    + right. exists r, r'. repeat split. exact H.
    + subst. left. reflexivity.
  - subst. split; [reflexivity | left; reflexivity].
Qed.

Lemma resume_same_value (s : Subscriber_)
  (r r' : IteratorResult ExecutionResult) :
  value r = value r' ->
  resume_ (mkTask s (Pending (AwaitNext (Fulfilled r))))
  = resume_ (mkTask s (Pending (AwaitNext (Fulfilled r')))).
Proof.
  intros H. unfold resume. simpl. rewrite H. reflexivity.
Qed.

Lemma SameTask_resume (t t' : Task_) :
  SameTask t t' ->
  fst (resume_ t) = fst (resume_ t')
  /\ SameTask (snd (resume_ t)) (snd (resume_ t')).
Proof.
  intros H. destruct H as [t | s p p' Hp | s r r' Hr].
  - split; [reflexivity | constructor].
  - destruct (resume_same_first s p p' Hp) as [Hc [Hs|(r & r' & Hv & H1 & H2)]].
    + split; [exact Hc|]. rewrite Hs. constructor.
    + split; [exact Hc|]. rewrite H1, H2. constructor. exact Hv.
  - rewrite (resume_same_value s r r' Hr). split; [reflexivity | constructor].
Qed.

Lemma SameTask_isPending (t t' : Task_) :
  SameTask t t' -> isPending t = isPending t'.
Proof.
  intros H. destruct H; reflexivity.
Qed.

Lemma SameTask_selectPending (ts ts' : list Task_) :
  Forall2 SameTask ts ts' ->
  forall k,
    match selectPending ts k, selectPending ts' k with
    | Some (before, t, after), Some (before', t', after') =>
        Forall2 SameTask before before' /\ SameTask t t'
        /\ Forall2 SameTask after after'
    | None, None => True
    | _, _ => False
    end.
Proof.
  induction 1 as [|t t' ts ts' Ht Hts IH]; simpl; intros k.
  - exact I.
  - rewrite <- (SameTask_isPending t t' Ht).
    destruct (isPending t).
    + destruct k as [|k].
      * repeat split; [constructor | exact Ht | exact Hts].
      * specialize (IH k).
        destruct (selectPending ts k) as [[[b x] a]|],
                 (selectPending ts' k) as [[[b' x'] a']|]; try contradiction;
          try exact I.
        destruct IH as (Hb & Hx & Ha).
        repeat split; [constructor; assumption | exact Hx | exact Ha].
    + specialize (IH k).
      destruct (selectPending ts k) as [[[b x] a]|],
               (selectPending ts' k) as [[[b' x'] a']|]; try contradiction;
        try exact I.
      destruct IH as (Hb & Hx & Ha).
      repeat split; [constructor; assumption | exact Hx | exact Ha].
Qed.

Lemma SameTask_countPending (ts ts' : list Task_) :
  Forall2 SameTask ts ts' -> countPending ts = countPending ts'.
Proof.
  unfold countPending.
  induction 1 as [|t t' ts ts' Ht _ IH]; simpl.
  - reflexivity.
  - rewrite <- (SameTask_isPending t t' Ht).
    destruct (isPending t); simpl; rewrite IH; reflexivity.
Qed.

Lemma SameTask_settle (fuel : nat) :
  forall (ts ts' : list Task_) (sched : Sched),
    Forall2 SameTask ts ts' ->
    fst (fst (settle_ fuel ts sched)) = fst (fst (settle_ fuel ts' sched))
    /\ snd (settle_ fuel ts sched) = snd (settle_ fuel ts' sched).
Proof.
  induction fuel as [|fuel IH]; intros ts ts' sched H.
  - split; reflexivity.
  - simpl. rewrite <- (SameTask_countPending ts ts' H).
    pose proof (SameTask_selectPending ts ts' H
                  (hd 0 sched mod countPending ts)) as Hsel.
    destruct (selectPending ts _) as [[[b t] a]|],
             (selectPending ts' _) as [[[b' t'] a']|]; try contradiction.
    + destruct Hsel as (Hb & Ht & Ha).
      destruct (SameTask_resume t t' Ht) as [Hc Hn].
      destruct (resume_ t) as [cs x], (resume_ t') as [cs' x']. simpl in *.
      subst cs'.
      destruct (IH (b ++ x :: a) (b' ++ x' :: a') (tl sched)) as [IHc IHs].
      { apply Forall2_app; [exact Hb | constructor; assumption]. }
      destruct (settle_ fuel (b ++ x :: a) (tl sched)) as [[tr1 ts1] s1],
               (settle_ fuel (b' ++ x' :: a') (tl sched)) as [[tr2 ts2] s2].
      simpl in *. subst. split; reflexivity.
    + split; reflexivity.
Qed.

(** X12.  Of what [execute] answers for a subscriber the handler reads
    only this: whether it rejects and with what, whether it is an
    async iterable, and the value of that iterable's first pull (or
    the error it rejects with).  Two engines whose answers agree on
    these lead to the same run under the same schedule, the same
    calls, messages and result: the plain result of an answer that is
    not iterable, the [done] mark of the first pull and whatever a
    second pull would give are never looked at. *)
Theorem run_depends_on_first_pull_only
  (execute' :
     @ExecuteOptions Structured Operation Schema Context_ LambdaContext ->
     Settled (@ExecuteResult ExecutionResult))
  (Records : list (@DynamoDBRecord AttributeMap)) (sched : Sched) :
  (forall opts, sameFirstValue (execute opts) (execute' opts)) ->
  handler_ Records sched
  = processDynamoDBStreamEvents unmarshall execute' getProtocol formatMessage
      options lambdaContext Records sched.
Proof.
  intros Hsame.
  assert (Hpage : forall ev subscribers sched',
             runPage_ ev subscribers sched'
             = runPage execute' getProtocol formatMessage options lambdaContext
                 ev subscribers sched').
  { intros ev subscribers sched'. unfold runPage.
    rewrite !length_map.
    destruct (SameTask_settle (3 * length subscribers)
                (map (startTask_ ev) subscribers)
                (map (startTask execute' options lambdaContext ev) subscribers)
                sched') as [Hc Hs].
    { induction subscribers as [|s l IH]; simpl; constructor.
      - unfold startTask. constructor. apply Hsame.
      - exact IH. }
    destruct (settle_ _ (map (startTask_ ev) _) _) as [[tr1 ts1] s1].
    destruct (settle_ _ (map (startTask execute' options lambdaContext ev) _) _)
      as [[tr2 ts2] s2].
    simpl in *. subst. reflexivity. }
  assert (Hpages : forall ev pages sched',
             forAwaitPages_ ev pages sched'
             = forAwaitPages execute' getProtocol formatMessage options
                 lambdaContext ev pages sched').
  { intros ev pages. induction pages as [|e|subscribers more IH]; intros sched'.
    - reflexivity.
    - reflexivity.
    - simpl. unfold bind. simpl. rewrite <- Hpage.
      destruct (result (runPage_ ev subscribers sched')); [|reflexivity].
      rewrite IH. reflexivity. }
  unfold processDynamoDBStreamEvents. revert sched.
  induction Records as [|record more IH]; intros sched; simpl.
  - reflexivity.
  - destruct (isInsert record); simpl; [|apply IH].
    destruct (decode_ record) as [ev|e]; [|reflexivity].
    unfold bind, dispatch, bind, call. simpl. rewrite <- Hpages.
    destruct (result (forAwaitPages_ ev _ sched)); [|reflexivity].
    rewrite IH. reflexivity.
Qed.

(** X13.  Under every schedule, every call a run makes for a
    subscriber, be it [execute], a pull, a send or a log, is made for
    a subscriber that the registry listed for the event of an inserted
    and decoded record of the batch: nobody else is executed for or
    sent to. *)
Theorem only_listed_subscribers_are_served
  (Records : list (@DynamoDBRecord AttributeMap)) (sched : Sched) :
  Forall
    (fun c : Call_ =>
       match ownerOf c with
       | Some s =>
           exists record ev,
             In record Records /\ isInsert record = true
             /\ decode_ record = Normal ev
             /\ In s (pageSubscribers (registry_ ev))
       | None => True
       end)
    (calls (handler_ Records sched)).
Proof.
  apply handler_calls_Forall_listed; try (intros; exact I).
  intros record ev s Hin Hi Hd Hs.
  assert (G : exists record ev,
             In record Records /\ isInsert record = true
             /\ decode_ record = Normal ev
             /\ In s (pageSubscribers (registry_ ev))).
  { exists record, ev. repeat split; assumption. }
  split; [exact G|].
  eapply Forall_impl; [|apply taskBody_owner].
  intros c Hc. rewrite Hc. exact G.
Qed.

End ProcessorFacts.

(** ** The single-event source *)

Section PubSubFacts.

Context {Structured : Type}.

Variable JSON_parse : string -> Completion (@Payload Structured).

Lemma includes_In (names : list string) (name : string) :
  includes names name = true <-> In name names.
Proof.
  unfold includes. rewrite existsb_exists. split.
  - intros (n & Hin & Heq). apply String.eqb_eq in Heq. subst. exact Hin.
  - intros Hin. exists name. split; [exact Hin | apply String.eqb_refl].
Qed.

Lemma drain_single (v : @Payload Structured) (fuel : nat) :
  length (drain fuel (createAsyncIterator [v]) 0) <= 1.
Proof.
  destruct fuel as [|[|fuel]]; simpl; lia.
Qed.

Lemma drain_empty (fuel : nat) :
  drain fuel (createAsyncIterator (@nil (@Payload Structured))) 0 = [].
Proof.
  destruct fuel; reflexivity.
Qed.

(** C7, as the code has it.  A [PubSub] built from one event, asked
    for an iterator over one name or over a list of names.  The
    event's name is requested when it is that one name, or is in the
    list.  If the request returns an iterator: when the name is
    requested, the first pull yields the event's payload, the value
    [JSON.parse] gives for a string payload and the payload itself
    otherwise, every later pull reports [done], and exactly that one
    value comes out; when the name is not requested, every pull
    reports [done] and nothing comes out.  If the request throws,
    the name is requested and the payload is a string that
    [JSON.parse] rejects with the error thrown; no sequence is
    produced then. *)
Theorem single_event_source_yields_at_most_once
  (ev : @ISubscriptionEvent Structured) (eventNames : EventNames) :
  let requested :=
    match eventNames with
    | OneName name => event ev = name
    | ManyNames names => In (event ev) names
    end in
  match asyncIterator JSON_parse {| events := [ev] |} eventNames with
  | Normal it =>
      (requested ->
       exists v,
         match payload ev with
         | PayloadString text => JSON_parse text = Normal v
         | PayloadValue x => v = PayloadValue x
         end
         /\ it 0 = Fulfilled {| value := Some v; done := false |}
         /\ (forall k, it (S k) = Fulfilled {| value := None; done := true |})
         /\ forall fuel, drain (S fuel) it 0 = [v])
      /\ (~ requested ->
          (forall k, it k = Fulfilled {| value := None; done := true |})
          /\ forall fuel, drain fuel it 0 = [])
  | Throw e =>
      requested
      /\ exists text, payload ev = PayloadString text /\ JSON_parse text = Throw e
  end.
Proof.
  intros requested.
  assert (Hreq : includes (namesOf eventNames) (event ev) = true <-> requested).
  { rewrite includes_In. unfold requested.
    destruct eventNames as [name|names]; simpl; [|tauto].
    split; [intros [H|[]]; symmetry; exact H | intros H; left; symmetry; exact H]. }
  unfold asyncIterator, matchingPayloads. simpl.
  destruct (includes (namesOf eventNames) (event ev)) eqn:Hinc; simpl.
  - assert (Hr : requested) by (apply Hreq; reflexivity).
    unfold parsePayload.
    destruct (payload ev) as [text|x] eqn:Hp.
    + destruct (JSON_parse text) as [v|e] eqn:Hv.
      * split; [|intros Hn; contradiction].
        intros _. exists v. split; [reflexivity|]. split; [reflexivity|].
        split; [intros k; destruct k; reflexivity|].
        intros fuel. destruct fuel; reflexivity.
      * split; [exact Hr|]. exists text. split; [reflexivity | exact Hv].
    + split; [|intros Hn; contradiction].
      intros _. exists (PayloadValue x). split; [reflexivity|].
      split; [reflexivity|].
      split; [intros k; destruct k; reflexivity|].
      intros fuel. destruct fuel; reflexivity.
  - split.
    + intros Hr. apply Hreq in Hr. discriminate.
    + intros _. split; [intros k; destruct k; reflexivity|].
      intros fuel. destruct fuel; reflexivity.
Qed.

(** *** A source over any number of events *)

Lemma mapThrowing_Forall2 {A B : Type} (f : A -> Completion B) (l : list A) :
  forall vs, mapThrowing f l = Normal vs ->
             Forall2 (fun x v => f x = Normal v) l vs.
Proof.
  induction l as [|x l IH]; simpl; intros vs H.
  - inversion H. constructor.
  - destruct (f x) as [y|e] eqn:Hx; [|discriminate].
    destruct (mapThrowing f l) as [ys|e]; [|discriminate].
    inversion H; subst. constructor; [exact Hx | apply IH; reflexivity].
Qed.

Lemma mapThrowing_app {A B : Type} (f : A -> Completion B) (a b : list A) :
  mapThrowing f (a ++ b)
  = match mapThrowing f a with
    | Throw e => Throw e
    | Normal va =>
        match mapThrowing f b with
        | Throw e => Throw e
        | Normal vb => Normal (va ++ vb)
        end
    end.
Proof.
  induction a as [|x a IH]; simpl.
  - destruct (mapThrowing f b); reflexivity.
  - destruct (f x) as [y|e]; [|reflexivity].
    rewrite IH. destruct (mapThrowing f a) as [va|e]; [|reflexivity].
    destruct (mapThrowing f b); reflexivity.
Qed.

Lemma mapThrowing_first_throw {A B : Type} (f : A -> Completion B) (l : list A) :
  forall e, mapThrowing f l = Throw e ->
            exists pre x post,
              l = pre ++ x :: post
              /\ Forall (fun y => exists v, f y = Normal v) pre
              /\ f x = Throw e.
Proof.
  induction l as [|x l IH]; simpl; intros e H.
  - discriminate.
  - destruct (f x) as [y|e'] eqn:Hx.
    + destruct (mapThrowing f l) as [ys|e'] eqn:Hl; [discriminate|].
      inversion H; subst.
      destruct (IH e eq_refl) as (pre & x' & post & -> & Hpre & Hx').
      exists (x :: pre), x', post. repeat split.
      * constructor; [exists y; exact Hx | exact Hpre].
      * exact Hx'.
    + inversion H; subst. exists [], x, l. repeat split; [constructor | exact Hx].
Qed.

Lemma mapThrowing_throws {A B : Type} (f : A -> Completion B) (l : list A)
  (x : A) (e : Exn) :
  In x l -> f x = Throw e -> exists e', mapThrowing f l = Throw e'.
Proof.
  induction l as [|y l IH]; simpl; intros Hin Hx.
  - contradiction.
  - destruct Hin as [->|Hin].
    + rewrite Hx. exists e. reflexivity.
    + destruct (f y); [|eexists; reflexivity].
      destruct (IH Hin Hx) as [e' ->]. exists e'. reflexivity.
Qed.

Lemma skipn_nth_error {A : Type} (l : list A) :
  forall k v, nth_error l k = Some v -> skipn k l = v :: skipn (S k) l.
Proof.
  induction l as [|x l IH]; intros [|k] v H; simpl in *; try discriminate.
  - inversion H. reflexivity.
  - apply IH. exact H.
Qed.

Lemma skipn_nth_error_none {A : Type} (l : list A) :
  forall k, nth_error l k = None -> skipn k l = [].
Proof.
  induction l as [|x l IH]; intros [|k] H; simpl in *; try discriminate;
    try reflexivity.
  apply IH. exact H.
Qed.

Lemma drain_createAsyncIterator {A : Type} (l : list A) (fuel : nat) :
  forall k, drain fuel (createAsyncIterator l) k = firstn fuel (skipn k l).
Proof.
  induction fuel as [|fuel IH]; intros k.
  - reflexivity.
  - cbn [drain]. unfold createAsyncIterator at 1.
    destruct (nth_error l k) as [v|] eqn:Hk.
    + rewrite (skipn_nth_error l k v Hk). cbn [firstn]. rewrite IH. reflexivity.
    + rewrite (skipn_nth_error_none l k Hk). reflexivity.
Qed.

(** X1.  A [PubSub] over any list of events, asked for an iterator
    that it returns without throwing: the iterator hands out, in the
    order of the events, the payload of every event whose name was
    asked for (parsed when it is a string) and of no other; its k-th
    pull is fulfilled with the k-th of these values, and with [done]
    once they are used up, so that a pull never rejects; draining it
    gives back these values. *)
Theorem source_yields_requested_payloads_in_order
  (this : @PubSub Structured) (eventNames : EventNames)
  (it : AsyncIterator (@Payload Structured)) :
  asyncIterator JSON_parse this eventNames = Normal it ->
  exists values,
    Forall2 (fun ev v => parsePayload JSON_parse ev = Normal v)
      (filter (fun ev => includes (namesOf eventNames) (event ev)) (events this))
      values
    /\ (forall k,
           it k
           = Fulfilled
               {| value := nth_error values k;
                  done := match nth_error values k with
                          | Some _ => false
                          | None => true
                          end |})
    /\ (forall fuel, drain fuel it 0 = firstn fuel values)
    /\ drain (length (events this)) it 0 = values.
Proof.
  unfold asyncIterator, matchingPayloads. intros H.
  destruct (mapThrowing _ _) as [values|e] eqn:Hm; [|discriminate].
  inversion H; subst it. clear H.
  pose proof (mapThrowing_Forall2 _ _ _ Hm) as Hf.
  exists values. split; [exact Hf|]. split; [|split].
  - intros k. unfold createAsyncIterator.
    destruct (nth_error values k); reflexivity.
  - intros fuel. apply drain_createAsyncIterator.
  - rewrite drain_createAsyncIterator. simpl.
    apply firstn_all2.
    rewrite <- (Forall2_length Hf).
    apply filter_length_le.
Qed.

(** X2.  Asking for an iterator throws exactly when some event whose
    name is asked for carries a string that [JSON.parse] rejects; an
    unparsable event that is not asked for is never parsed.  The error
    thrown is that of the first such event: the requested events
    before it all parse. *)
Theorem source_throws_iff_requested_event_unparsable
  (this : @PubSub Structured) (eventNames : EventNames) :
  ((exists e, asyncIterator JSON_parse this eventNames = Throw e)
   <-> exists ev text e,
         In ev (events this)
         /\ In (event ev) (namesOf eventNames)
         /\ payload ev = PayloadString text
         /\ JSON_parse text = Throw e)
  /\ forall e,
      asyncIterator JSON_parse this eventNames = Throw e ->
      exists pre ev post text,
        filter (fun ev => includes (namesOf eventNames) (event ev)) (events this)
        = pre ++ ev :: post
        /\ Forall (fun ev' => exists v, parsePayload JSON_parse ev' = Normal v) pre
        /\ payload ev = PayloadString text
        /\ JSON_parse text = Throw e.
Proof.
  assert (Hfirst : forall e,
             asyncIterator JSON_parse this eventNames = Throw e ->
             exists pre ev post text,
               filter (fun ev => includes (namesOf eventNames) (event ev))
                 (events this)
               = pre ++ ev :: post
               /\ Forall (fun ev' => exists v, parsePayload JSON_parse ev' = Normal v)
                    pre
               /\ payload ev = PayloadString text
               /\ JSON_parse text = Throw e).
  { intros e H. unfold asyncIterator, matchingPayloads in H.
    destruct (mapThrowing _ _) as [values|e'] eqn:Hm; [discriminate|].
    inversion H; subst e'. clear H.
    destruct (mapThrowing_first_throw _ _ _ Hm) as (pre & ev & post & Hl & Hpre & Hev).
    unfold parsePayload in Hev.
    destruct (payload ev) as [text|v] eqn:Hp; [|discriminate].
    exists pre, ev, post, text. repeat split; assumption. }
  split; [|exact Hfirst].
  split.
  - intros [e H]. destruct (Hfirst e H) as (pre & ev & post & text & Hl & _ & Hp & Ht).
    assert (Hin : In ev (filter (fun ev => includes (namesOf eventNames) (event ev))
                           (events this))).
    { rewrite Hl. apply in_or_app. right. left. reflexivity. }
    apply filter_In in Hin. destruct Hin as [Hin Hinc].
    exists ev, text, e. repeat split; try assumption.
    apply includes_In. exact Hinc.
  - intros (ev & text & e & Hin & Hname & Hp & Ht).
    unfold asyncIterator, matchingPayloads.
    destruct (mapThrowing_throws (parsePayload JSON_parse)
                (filter (fun ev => includes (namesOf eventNames) (event ev))
                   (events this)) ev e) as [e' He'].
    + apply filter_In. split; [exact Hin | apply includes_In; exact Hname].
    + unfold parsePayload. rewrite Hp. exact Ht.
    + rewrite He'. exists e'. reflexivity.
Qed.

(** X3.  Only which names are asked for matters, not how: two requests
    naming the same names, in whatever order, however often, as one
    string or as a list, get the same values or the same error; a name
    repeated in the request does not repeat an event's payload. *)
Theorem source_reads_names_as_a_set
  (this : @PubSub Structured) (a b : EventNames) :
  (forall name, In name (namesOf a) <-> In name (namesOf b)) ->
  matchingPayloads JSON_parse this a = matchingPayloads JSON_parse this b
  /\ asyncIterator JSON_parse this a = asyncIterator JSON_parse this b.
Proof.
  intros H.
  assert (Hm : matchingPayloads JSON_parse this a
               = matchingPayloads JSON_parse this b).
  { unfold matchingPayloads. f_equal. apply filter_ext. intros ev.
    destruct (includes (namesOf a) (event ev)) eqn:Ha;
      destruct (includes (namesOf b) (event ev)) eqn:Hb; try reflexivity.
    - apply includes_In, H, includes_In in Ha. congruence.
    - apply includes_In, H, includes_In in Hb. congruence. }
  split; [exact Hm|].
  unfold asyncIterator. rewrite Hm. reflexivity.
Qed.

(** X4.  The values of a source over two lists of events put together
    are those of the first followed by those of the second; the
    request throws what the first throws, and otherwise what the
    second throws. *)
Theorem source_values_of_appended_events
  (first second : list (@ISubscriptionEvent Structured))
  (eventNames : EventNames) :
  matchingPayloads JSON_parse {| events := first ++ second |} eventNames
  = match matchingPayloads JSON_parse {| events := first |} eventNames with
    | Throw e => Throw e
    | Normal values1 =>
        match matchingPayloads JSON_parse {| events := second |} eventNames with
        | Throw e => Throw e
        | Normal values2 => Normal (values1 ++ values2)
        end
    end.
Proof.
  unfold matchingPayloads. simpl. rewrite filter_app. apply mapThrowing_app.
Qed.

End PubSubFacts.

(** ** Runs of the concrete deployment *)

Module ExampleRuns.

Import Example.

(** A batch with one inserted event: the first page holds a subscriber
    whose connection is gone, the second one whose first pull fails.
    Both failures are logged and the handler's promise is fulfilled. *)
Lemma handler_resolves_witness :
  forallb (recordSucceeds unmarshall (subscriptionManager options))
    [insert "NOTE_ADDED" (PayloadValue 1)] = true
  /\ filter isLog (calls (handler [insert "NOTE_ADDED" (PayloadValue 1)] [2; 1; 0; 5; 3]))
     = [CallLog s3 (Error "connection gone"); CallLog s4 (Error "resolver failed")]
  /\ result (handler [insert "NOTE_ADDED" (PayloadValue 1)] [2; 1; 0; 5; 3])
     = Fulfilled tt.
Proof.
  split; [reflexivity|]. split; [reflexivity|].
  apply (proj2 (handler_resolves_despite_subscriber_failures
                  unmarshall execute getProtocol formatMessage options tt
                  [insert "NOTE_ADDED" (PayloadValue 1)] [2; 1; 0; 5; 3])).
  reflexivity.
Defined.

(** A modified record in front of an inserted one changes nothing. *)
Lemma non_insert_record_witness :
  eventName (modify "NOTE_ADDED" (PayloadValue 1)) <> Some "INSERT"
  /\ handler [modify "NOTE_ADDED" (PayloadValue 1);
              insert "NOTE_ADDED" (PayloadValue 2)] [1]
     = handler [insert "NOTE_ADDED" (PayloadValue 2)] [1]
  /\ calls (handler [modify "NOTE_ADDED" (PayloadValue 1)] [1]) = []
  /\ result (handler [modify "NOTE_ADDED" (PayloadValue 1)] [1]) = Fulfilled tt.
Proof.
  assert (H : eventName (modify "NOTE_ADDED" (PayloadValue 1)) <> Some "INSERT")
    by (simpl; discriminate).
  split; [exact H|].
  exact (non_insert_record_is_skipped
           unmarshall execute getProtocol formatMessage options tt
           (modify "NOTE_ADDED" (PayloadValue 1))
           [insert "NOTE_ADDED" (PayloadValue 2)] [1] H).
Defined.

(** An inserted record without [dynamodb] in front of a well-formed
    one: the handler's promise is rejected and the well-formed record,
    which on its own leads to three messages, is never looked at. *)
Lemma decode_failure_is_not_skipped :
  (exists msg,
      result (handler [insertWithoutDynamodb; insert "NOTE_ADDED" (PayloadValue 1)] [])
      = Rejected (TypeError msg))
  /\ calls (handler [insertWithoutDynamodb; insert "NOTE_ADDED" (PayloadValue 1)] [])
     = []
  /\ result (handler [insert "NOTE_ADDED" (PayloadValue 1)] []) = Fulfilled tt
  /\ length (filter isSend (calls (handler [insert "NOTE_ADDED" (PayloadValue 1)] [])))
     = 3
  /\ handler [insertWithoutDynamodb; insert "NOTE_ADDED" (PayloadValue 1)] []
     <> handler [insert "NOTE_ADDED" (PayloadValue 1)] [].
Proof.
  split; [eexists; reflexivity|].
  repeat (split; [reflexivity|]).
  intros H. apply (f_equal (@result _ _ _ _ _ _)) in H.
  vm_compute in H. discriminate H.
Qed.

(** One inserted event whose first page leads to two sends: run twice
    against the same answers, with the tasks of that page resumed in
    another order, the handler sends the same messages in another
    order. *)
Lemma second_run_can_send_in_another_order :
  sends (handler [insert "NOTE_ADDED" (PayloadValue 1)] [])
  = [("c1", "data/op1/1"); ("gone", "GQL_DATA/op3/1"); ("c5", "GQL_DATA/op5/1")]
  /\ sends (handler [insert "NOTE_ADDED" (PayloadValue 1)] [2; 1; 0; 5; 3])
     = [("gone", "GQL_DATA/op3/1"); ("c1", "data/op1/1"); ("c5", "GQL_DATA/op5/1")]
  /\ result (handler [insert "NOTE_ADDED" (PayloadValue 1)] [])
     = result (handler [insert "NOTE_ADDED" (PayloadValue 1)] [2; 1; 0; 5; 3])
  /\ filter isSend (calls (handler [insert "NOTE_ADDED" (PayloadValue 1)] []))
     <> filter isSend
          (calls (handler [insert "NOTE_ADDED" (PayloadValue 1)] [2; 1; 0; 5; 3])).
Proof.
  repeat (split; [reflexivity|]).
  intros H. vm_compute in H. discriminate H.
Defined.

(** An event whose two pages lead to one send each: two runs that
    resume the tasks in different orders, and differ in their calls,
    make exactly the same sequence of sends. *)
Lemma reprocessing_witness :
  Forall (fun page =>
            length (pageSends execute getProtocol formatMessage options tt page)
            <= 1)
    (batchPages unmarshall options [insert "NOTE_SHARED" (PayloadValue 1)])
  /\ calls (handler [insert "NOTE_SHARED" (PayloadValue 1)] [2; 1; 0; 1])
     <> calls (handler [insert "NOTE_SHARED" (PayloadValue 1)] [])
  /\ sends (handler [insert "NOTE_SHARED" (PayloadValue 1)] [])
     = [("c11", "data/op11/1"); ("c12", "GQL_DATA/op12/1")]
  /\ filter isSend
       (calls (handler [insert "NOTE_SHARED" (PayloadValue 1)] [2; 1; 0; 1]))
     = filter isSend (calls (handler [insert "NOTE_SHARED" (PayloadValue 1)] [])).
Proof.
  assert (H : Forall
                (fun page =>
                   length (pageSends execute getProtocol formatMessage options
                             tt page) <= 1)
                (batchPages unmarshall options
                   [insert "NOTE_SHARED" (PayloadValue 1)])).
  { vm_compute. repeat constructor. }
  split; [exact H|].
  split; [intros Hc; vm_compute in Hc; discriminate Hc|].
  split; [reflexivity|].
  exact (proj2 (proj2 (proj2
           (reprocessing_repeats_the_deliveries
              unmarshall execute getProtocol formatMessage options tt
              [insert "NOTE_SHARED" (PayloadValue 1)] [] [2; 1; 0; 1])))
           H).
Defined.

(** A source over one event named [NOTE_ADDED] whose payload is a
    string that is not JSON, asked for [NOTE_ADDED]: the name is
    requested, yet the request throws and no payload comes out. *)
Lemma unparsable_single_event_yields_nothing :
  JSON_parse "{oops" = Throw (SyntaxError "Unexpected token in JSON")
  /\ event (unparsable "NOTE_ADDED") = "NOTE_ADDED"
  /\ asyncIterator JSON_parse {| events := [unparsable "NOTE_ADDED"] |}
       (OneName "NOTE_ADDED")
     = Throw (SyntaxError "Unexpected token in JSON")
  /\ ~ (exists it v,
          asyncIterator JSON_parse {| events := [unparsable "NOTE_ADDED"] |}
            (OneName "NOTE_ADDED")
          = Normal it
          /\ it 0 = Fulfilled {| value := Some v; done := false |}).
Proof.
  repeat (split; [reflexivity|]).
  intros (it & v & H & _). vm_compute in H. discriminate H.
Defined.

(** A source over one event named [NOTE_ADDED] whose payload is the
    text 1: asked for [NOTE_ADDED] it yields the number 1 and nothing
    more; asked for two other names it yields nothing. *)
Lemma single_event_source_witness :
  event noteAddedText = "NOTE_ADDED"
  /\ match asyncIterator JSON_parse {| events := [noteAddedText] |}
             (OneName "NOTE_ADDED") with
     | Normal it => drain 3 it 0 = [PayloadValue 1]
     | Throw _ => False
     end
  /\ ~ In (event noteAddedText) ["NOTE_REMOVED"; "NOTE_EDITED"]
  /\ match asyncIterator JSON_parse {| events := [noteAddedText] |}
             (ManyNames ["NOTE_REMOVED"; "NOTE_EDITED"]) with
     | Normal it => drain 3 it 0 = []
     | Throw _ => False
     end.
Proof.
  assert (Hn : ~ In (event noteAddedText) ["NOTE_REMOVED"; "NOTE_EDITED"]).
  { simpl. intros [H|[H|[]]]; discriminate H. }
  split; [reflexivity|]. split; [|split; [exact Hn|]].
  - pose proof (single_event_source_yields_at_most_once JSON_parse
                  noteAddedText (OneName "NOTE_ADDED")) as H.
    change (asyncIterator JSON_parse {| events := [noteAddedText] |}
              (OneName "NOTE_ADDED"))
      with (Normal (createAsyncIterator [PayloadValue 1])) in H |- *.
    cbv beta iota zeta in H.
    destruct H as [H _].
    destruct (H eq_refl) as (v & Hv & _ & _ & Hd).
    vm_compute in Hv. inversion Hv; subst v. apply Hd.
  - pose proof (single_event_source_yields_at_most_once JSON_parse
                  noteAddedText (ManyNames ["NOTE_REMOVED"; "NOTE_EDITED"])) as H.
    change (asyncIterator JSON_parse {| events := [noteAddedText] |}
              (ManyNames ["NOTE_REMOVED"; "NOTE_EDITED"]))
      with (Normal (createAsyncIterator (@nil Value))) in H |- *.
    cbv beta iota zeta in H.
    destruct H as [_ H]. destruct (H Hn) as [_ Hd]. apply Hd.
Defined.

(** An event with a payload that is not JSON and four subscribers: one
    whose operation does not validate, one whose engine reports the
    failed subscription as an error result, one that asks for another
    event name, one whose engine lets the parse error through.  Only
    the last one is logged; the other three end silently. *)
Lemma unparsable_payload_is_not_always_logged :
  JSON_parse "{oops" = Throw (SyntaxError "Unexpected token in JSON")
  /\ pageSubscribers (registry "NOTE_EDITED") = [s6; s7; s1; s9]
  /\ filter isLog
       (calls (handler [insert "NOTE_EDITED" (PayloadString "{oops")] []))
     = [CallLog s9 (SyntaxError "Unexpected token in JSON")]
  /\ result (handler [insert "NOTE_EDITED" (PayloadString "{oops")] [])
     = Fulfilled tt
  /\ ~ (forall s, In s (pageSubscribers (registry "NOTE_EDITED")) ->
          exists e,
            In (CallLog s e)
              (calls (handler [insert "NOTE_EDITED" (PayloadString "{oops")] []))).
Proof.
  repeat (split; [reflexivity|]).
  intros H. destruct (H s7) as [e He].
  - simpl. right. left. reflexivity.
  - vm_compute in He.
    repeat (destruct He as [He|He]; [discriminate He|]).
    exact He.
Defined.

(** The same payload and three subscribers that ask for the event's
    name: two whose engine lets the parse error through, one whose
    engine reports it as an error result.  The first two are logged,
    nothing is pulled, nothing is sent. *)
Lemma unparsable_payload_witness :
  payload (unparsable "NOTE_ADDED") = PayloadString "{oops"
  /\ JSON_parse "{oops" = Throw (SyntaxError "Unexpected token in JSON")
  /\ filter isNext
       (calls (forAwait (unparsable "NOTE_ADDED")
                 (PagesYield [s1; s10] (PagesYield [s5] PagesDone)) [1]))
     = []
  /\ filter isSend
       (calls (forAwait (unparsable "NOTE_ADDED")
                 (PagesYield [s1; s10] (PagesYield [s5] PagesDone)) [1]))
     = []
  /\ Permutation
       (filter isLog
          (calls (forAwait (unparsable "NOTE_ADDED")
                    (PagesYield [s1; s10] (PagesYield [s5] PagesDone)) [1])))
       [CallLog s1 (SyntaxError "Unexpected token in JSON");
        CallLog s5 (SyntaxError "Unexpected token in JSON")]
  /\ result (forAwait (unparsable "NOTE_ADDED")
               (PagesYield [s1; s10] (PagesYield [s5] PagesDone)) [1])
     = Fulfilled tt.
Proof.
  split; [reflexivity|]. split; [reflexivity|].
  assert (Hx : forall s,
             In s (pageSubscribers (PagesYield [s1; s10] (PagesYield [s5] PagesDone))) ->
             exists eventNames,
               includes (namesOf eventNames) (event (unparsable "NOTE_ADDED")) = true
               /\ forall e',
                   asyncIterator JSON_parse
                     (x_pubSub (executeOptions options tt (unparsable "NOTE_ADDED") s))
                     eventNames = Throw e' ->
                   execute (executeOptions options tt (unparsable "NOTE_ADDED") s)
                   = Rejected e'
                   \/ exists r,
                       execute (executeOptions options tt (unparsable "NOTE_ADDED") s)
                       = Fulfilled (NotIterable r)).
  { intros s Hs. simpl in Hs.
    destruct Hs as [<-|[<-|[<-|[]]]].
    - exists (ManyNames ["NOTE_ADDED"]). split; [reflexivity|].
      intros e' He. vm_compute in He. inversion He; subst. left. reflexivity.
    - exists (ManyNames ["NOTE_ADDED"]). split; [reflexivity|].
      intros e' He. right. eexists. reflexivity.
    - exists (ManyNames ["NOTE_ADDED"]). split; [reflexivity|].
      intros e' He. vm_compute in He. inversion He; subst. left. reflexivity. }
  exact (proj2 (proj2
           (unparsable_payload_fails_in_the_subscriber_task
              execute getProtocol formatMessage options tt JSON_parse
              (unparsable "NOTE_ADDED") "{oops"
              (SyntaxError "Unexpected token in JSON")
              (PagesYield [s1; s10] (PagesYield [s5] PagesDone)) [1]
              eq_refl eq_refl Hx))).
Defined.

(** One inserted event [NOTE_ADDED] with payload 1, under two
    schedules.  Connection [c1] (no flag) gets the current data tag,
    [gone] and [c5] (legacy flag) the legacy one, [c2] asked for
    another event and gets nothing, [c4] fails at the pull.  The
    second page is served after the first under both schedules; within
    the first page the order depends on the schedule. *)
Lemma scenario_two_pages :
  sends (handler [insert "NOTE_ADDED" (PayloadValue 1)] [])
  = [("c1", "data/op1/1"); ("gone", "GQL_DATA/op3/1"); ("c5", "GQL_DATA/op5/1")]
  /\ sends (handler [insert "NOTE_ADDED" (PayloadValue 1)] [2; 1; 0; 5; 3])
     = [("gone", "GQL_DATA/op3/1"); ("c1", "data/op1/1"); ("c5", "GQL_DATA/op5/1")]
  /\ result (handler [insert "NOTE_ADDED" (PayloadValue 1)] []) = Fulfilled tt.
Proof.
  repeat split; reflexivity.
Qed.

(** The same run with the subscriber on the gone connection set aside
    is the run of the pages without that subscriber. *)
Lemma scenario_gone_connection_set_aside :
  filter (callKept (notOn "gone"))
    (calls (forAwait noteAdded (registry "NOTE_ADDED") []))
  = calls (forAwait noteAdded
             (filterPages (notOn "gone") (registry "NOTE_ADDED")) []).
Proof.
  vm_compute. reflexivity.
Qed.

End ExampleRuns.

(** ** Further runs of the concrete deployment *)

Module ExtraRuns.

Import Example.

(** Asked for [NOTE_ADDED], the source over three events yields the
    first payload parsed and the third as it is; the unparsable second
    event has another name and is not looked at. *)
Lemma source_yields_requested_payloads_witness :
  asyncIterator JSON_parse threeEvents (OneName "NOTE_ADDED")
  = Normal (createAsyncIterator [PayloadValue 1; PayloadValue 2])
  /\ drain 3 (createAsyncIterator [PayloadValue 1; PayloadValue 2]) 0
     = [PayloadValue 1; PayloadValue 2]
  /\ exists values,
      Forall2 (fun ev v => parsePayload JSON_parse ev = Normal v)
        (filter (fun ev => includes (namesOf (OneName "NOTE_ADDED")) (event ev))
           (events threeEvents))
        values
      /\ (forall k,
             createAsyncIterator [PayloadValue 1; PayloadValue 2] k
             = Fulfilled
                 {| value := nth_error values k;
                    done := match nth_error values k with
                            | Some _ => false
                            | None => true
                            end |})
      /\ (forall fuel,
             drain fuel (createAsyncIterator [PayloadValue 1; PayloadValue 2]) 0
             = firstn fuel values)
      /\ drain (length (events threeEvents))
           (createAsyncIterator [PayloadValue 1; PayloadValue 2]) 0
         = values.
Proof.
  split; [reflexivity|]. split; [reflexivity|].
  exact (source_yields_requested_payloads_in_order JSON_parse threeEvents
           (OneName "NOTE_ADDED")
           (createAsyncIterator [PayloadValue 1; PayloadValue 2]) eq_refl).
Defined.

(** Asked for both names, the same source throws the parse error of
    its second event; the first event, before it, parses. *)
Lemma source_throws_witness :
  asyncIterator JSON_parse threeEvents (ManyNames ["NOTE_REMOVED"; "NOTE_ADDED"])
  = Throw (SyntaxError "Unexpected token in JSON")
  /\ exists pre ev post text,
      filter (fun ev => includes
                          (namesOf (ManyNames ["NOTE_REMOVED"; "NOTE_ADDED"]))
                          (event ev))
        (events threeEvents)
      = pre ++ ev :: post
      /\ Forall (fun ev' => exists v, parsePayload JSON_parse ev' = Normal v) pre
      /\ payload ev = PayloadString text
      /\ JSON_parse text = Throw (SyntaxError "Unexpected token in JSON").
Proof.
  split; [reflexivity|].
  exact (proj2 (source_throws_iff_requested_event_unparsable JSON_parse
                  threeEvents (ManyNames ["NOTE_REMOVED"; "NOTE_ADDED"]))
           (SyntaxError "Unexpected token in JSON") eq_refl).
Defined.

(** One name as a string, and the same name twice in a list. *)
Lemma source_reads_names_as_a_set_witness :
  (forall name,
      In name (namesOf (OneName "NOTE_ADDED"))
      <-> In name (namesOf (ManyNames ["NOTE_ADDED"; "NOTE_ADDED"])))
  /\ matchingPayloads JSON_parse threeEvents (OneName "NOTE_ADDED")
     = matchingPayloads JSON_parse threeEvents
         (ManyNames ["NOTE_ADDED"; "NOTE_ADDED"])
  /\ matchingPayloads JSON_parse threeEvents
       (ManyNames ["NOTE_ADDED"; "NOTE_ADDED"])
     = Normal [PayloadValue 1; PayloadValue 2].
Proof.
  assert (H : forall name,
             In name (namesOf (OneName "NOTE_ADDED"))
             <-> In name (namesOf (ManyNames ["NOTE_ADDED"; "NOTE_ADDED"]))).
  { intros name. simpl. tauto. }
  split; [exact H|]. split; [|reflexivity].
  exact (proj1 (source_reads_names_as_a_set JSON_parse threeEvents
                  (OneName "NOTE_ADDED")
                  (ManyNames ["NOTE_ADDED"; "NOTE_ADDED"]) H)).
Defined.

(** The subscriber on the gone connection is listed on the first page
    with two others; its message is sent and the rejection is logged,
    under a schedule that resumes it first. *)
Lemma listed_subscriber_witness :
  In s3 (pageSubscribers (registry "NOTE_ADDED"))
  /\ execute (executeOptions options tt noteAdded s3)
     = Fulfilled (AsyncIterable (createAsyncIterator [PayloadValue 1]))
  /\ formatMessage (outbound getProtocol s3 (PayloadValue 1))
     = Normal "GQL_DATA/op3/1"
  /\ In (CallSend s3 "GQL_DATA/op3/1")
       (calls (forAwait noteAdded (registry "NOTE_ADDED") [2; 2; 1]))
  /\ In (CallLog s3 (Error "connection gone"))
       (calls (forAwait noteAdded (registry "NOTE_ADDED") [2; 2; 1])).
Proof.
  assert (Hin : In s3 (pageSubscribers (registry "NOTE_ADDED"))).
  { simpl. right. right. left. reflexivity. }
  split; [exact Hin|]. split; [reflexivity|]. split; [reflexivity|].
  exact (listed_subscriber_with_a_value_is_sent_to
           execute getProtocol formatMessage options tt
           noteAdded (registry "NOTE_ADDED") [2; 2; 1] s3
           (createAsyncIterator [PayloadValue 1])
           {| value := Some (PayloadValue 1); done := false |}
           (PayloadValue 1) "GQL_DATA/op3/1"
           Hin eq_refl eq_refl eq_refl eq_refl).
Defined.

(** The calls made for the subscriber on the gone connection, picked
    out of a run in which the tasks of its page interleave. *)
Lemma program_order_witness :
  filter (onConnection "gone") (pageSubscribers (registry "NOTE_ADDED")) = [s3]
  /\ filter (callOwnedBy (onConnection "gone"))
       (calls (forAwait noteAdded (registry "NOTE_ADDED") [1; 2; 0; 1]))
     = [callExecute options tt noteAdded s3;
        CallNext s3;
        CallSend s3 "GQL_DATA/op3/1";
        CallLog s3 (Error "connection gone")].
Proof.
  split; [reflexivity|].
  exact (proj1 (calls_of_one_subscriber_are_in_program_order
                  execute getProtocol formatMessage options tt
                  noteAdded (registry "NOTE_ADDED") [1; 2; 0; 1]
                  (onConnection "gone") s3 eq_refl)).
Defined.

(** The registry yields one page for [NOTE_LOST] and then fails: the
    subscriber of that page is executed and logged, the handler's
    promise is rejected and the record after it is not dispatched. *)
Lemma registry_failure_witness :
  batchResult unmarshall (subscriptionManager options)
    [insert "NOTE_ADDED" (PayloadValue 1)] = Fulfilled tt
  /\ pagesResult (registry "NOTE_LOST") = Rejected (Error "registry unreachable")
  /\ result (handler [insert "NOTE_ADDED" (PayloadValue 1);
                      insert "NOTE_LOST" (PayloadValue 1);
                      insert "NOTE_ADDED" (PayloadValue 2)] [])
     = Rejected (Error "registry unreachable")
  /\ filter isLog
       (calls (handler [insert "NOTE_ADDED" (PayloadValue 1);
                        insert "NOTE_LOST" (PayloadValue 1);
                        insert "NOTE_ADDED" (PayloadValue 2)] []))
     = [CallLog s3 (Error "connection gone");
        CallLog s4 (Error "resolver failed");
        CallLog s8 (Error "Cannot determine operation type")]
  /\ calls (handler [insert "NOTE_ADDED" (PayloadValue 1);
                     insert "NOTE_LOST" (PayloadValue 1);
                     insert "NOTE_ADDED" (PayloadValue 2)] [])
     = calls (handler [insert "NOTE_ADDED" (PayloadValue 1);
                       insert "NOTE_LOST" (PayloadValue 1)] []).
Proof.
  split; [reflexivity|]. split; [reflexivity|].
  pose proof (registry_failure_rejects_the_batch
                unmarshall execute getProtocol formatMessage options tt
                [insert "NOTE_ADDED" (PayloadValue 1)]
                (insert "NOTE_LOST" (PayloadValue 1))
                [insert "NOTE_ADDED" (PayloadValue 2)] []
                {| event := "NOTE_LOST"; payload := PayloadValue 1 |}
                (Error "registry unreachable")
                eq_refl eq_refl eq_refl eq_refl) as (Hr & _ & Hc).
  split; [exact Hr|]. split; [reflexivity | exact Hc].
Defined.

(** The engine that marks first values [done] and fails at second
    pulls leads to the very run of the engine it copies. *)
Lemma first_pull_only_witness :
  (forall opts, sameFirstValue (execute opts) (executeOnce opts))
  /\ handler [insert "NOTE_ADDED" (PayloadValue 1);
              insert "NOTE_EDITED" (PayloadString "{oops")] [2; 0; 1]
     = processDynamoDBStreamEvents unmarshall executeOnce getProtocol
         formatMessage options tt
         [insert "NOTE_ADDED" (PayloadValue 1);
          insert "NOTE_EDITED" (PayloadString "{oops")] [2; 0; 1].
Proof.
  assert (H : forall opts, sameFirstValue (execute opts) (executeOnce opts)).
  { intros opts. unfold executeOnce, sameFirstValue.
    destruct (execute opts) as [[it|r]|e]; try reflexivity.
    destruct (it 0) as [r|e]; reflexivity. }
  split; [exact H|].
  exact (run_depends_on_first_pull_only
           unmarshall execute getProtocol formatMessage options tt executeOnce
           [insert "NOTE_ADDED" (PayloadValue 1);
            insert "NOTE_EDITED" (PayloadString "{oops")] [2; 0; 1] H).
Defined.

End ExtraRuns.
